(** * VAT validator API: validation pipeline, VIES protocol client, fallback rule

    A shallow embedding of [src/validation/vatValidation.ts],
    [src/services/viesService.ts] and the orchestrator [validateVat] of
    [src/app.ts].

    Conventions of the embedding.
    - A JavaScript string is a [string], and the model is that of the
      strings made of ASCII characters.  There [toUpperCase] and
      [toLowerCase] act on the letters a-z / A-Z, and the white space class
      [\s] (also used by [trim]) is TAB, LF, VT, FF, CR and SPACE.  Beyond
      ASCII the host language does more, which the model leaves out:
      [toUpperCase] maps U+00DF to SS, U+FB01 to FI and U+0131 to I, and
      white space also holds U+00A0, U+FEFF, U+2028, U+2029 and the space
      separators.  The properties below are stated through [trim],
      [toUpperCase] and [toLowerCase] themselves, or restricted to ASCII
      input, where they depend on this.
    - A regular expression literal of the source is a value of [Regex.regex],
      run by a backtracking matcher that follows the priority order of the
      ECMAScript matcher (greedy: one more iteration first; lazy: the
      continuation first; search: leftmost start first).
    - Code that throws returns a sum: [inl] is the thrown value. *)

From Stdlib Require Import Bool List Arith ZArith Lia Ascii String.
From Stdlib Require Import Numbers.DecimalString.
Import ListNotations.
Open Scope string_scope.

(* ------------------------------------------------------------------ *)
(** ** String primitives of the host language *)

Module Js.

Definition is_upper (c : ascii) : bool := (("A" <=? c) && (c <=? "Z"))%char.
Definition is_lower (c : ascii) : bool := (("a" <=? c) && (c <=? "z"))%char.
Definition is_digit (c : ascii) : bool := (("0" <=? c) && (c <=? "9"))%char.

(** [\s]: TAB, LF, VT, FF, CR, SPACE. *)
Definition is_space (c : ascii) : bool :=
  match nat_of_ascii c with
  | 9 | 10 | 11 | 12 | 13 | 32 => true
  | _ => false
  end.

Definition upcase (c : ascii) : ascii :=
  if is_lower c then ascii_of_nat (nat_of_ascii c - 32) else c.

Definition downcase (c : ascii) : ascii :=
  if is_upper c then ascii_of_nat (nat_of_ascii c + 32) else c.

Fixpoint map_chars (f : ascii -> ascii) (s : string) : string :=
  match s with
  | EmptyString => EmptyString
  | String c s' => String (f c) (map_chars f s')
  end.

Definition toUpperCase : string -> string := map_chars upcase.
Definition toLowerCase : string -> string := map_chars downcase.

Fixpoint all_chars (p : ascii -> bool) (s : string) : bool :=
  match s with
  | EmptyString => true
  | String c s' => p c && all_chars p s'
  end.

(** [s.startsWith(p)], used by [includes]. *)
Fixpoint startsWith (p s : string) : bool :=
  match p with
  | EmptyString => true
  | String a p' =>
      match s with
      | EmptyString => false
      | String b s' => (a =? b)%char && startsWith p' s'
      end
  end.

(** [s.includes(p)]: [p] occurs in [s] at some position. *)
Fixpoint includes (s p : string) : bool :=
  startsWith p s ||
  match s with
  | EmptyString => false
  | String _ s' => includes s' p
  end.

Fixpoint trimStart (s : string) : string :=
  match s with
  | EmptyString => EmptyString
  | String c s' => if is_space c then trimStart s' else s
  end.

Fixpoint trimEnd (s : string) : string :=
  match s with
  | EmptyString => EmptyString
  | String c s' =>
      match trimEnd s' with
      | EmptyString => if is_space c then EmptyString else String c EmptyString
      | t => String c t
      end
  end.

Definition trim (s : string) : string := trimEnd (trimStart s).

(** [s.slice(0, n)] and [s.slice(n)] for [0 <= n]. *)
Fixpoint slice_to (n : nat) (s : string) : string :=
  match n, s with
  | S n', String c s' => String c (slice_to n' s')
  | _, _ => EmptyString
  end.

Fixpoint slice_from (n : nat) (s : string) : string :=
  match n, s with
  | S n', String _ s' => slice_from n' s'
  | _, _ => s
  end.

(** [s.replace(/c/g, rep)] for a one-character pattern. *)
Fixpoint replaceAll_char (c : ascii) (rep : string) (s : string) : string :=
  match s with
  | EmptyString => EmptyString
  | String d s' =>
      if (d =? c)%char then rep ++ replaceAll_char c rep s'
      else String d (replaceAll_char c rep s')
  end.

(** [s.replace(/[cls]+/g, "")]: every maximal run of the class is deleted. *)
Fixpoint removeAll_runs (cls : ascii -> bool) (s : string) : string :=
  match s with
  | EmptyString => EmptyString
  | String d s' =>
      if cls d then removeAll_runs cls s' else String d (removeAll_runs cls s')
  end.

(** Truthiness of a string value: [""] is falsy. *)
Definition truthy (s : string) : bool :=
  match s with EmptyString => false | _ => true end.

Definition string_of_nat (n : nat) : string :=
  NilEmpty.string_of_uint (Nat.to_uint n).

End Js.

(* ------------------------------------------------------------------ *)
(** ** Regular expressions, as far as the source uses them *)

Module Regex.

(** One element of a pattern.  [Rep cls lo hi greedy capture] is a character
    class under a quantifier: [*] is [Rep _ 0 None true _], [*?] is
    [Rep _ 0 None false _], [?] is [Rep _ 0 (Some 1) true _], [{n,m}] is
    [Rep _ n (Some m) true _]; [capture] marks the (single) parenthesised
    group.  [Eos] is [$] (no [m] flag). *)
Inductive atom : Type :=
| Chars (lit : string)
| Rep (cls : ascii -> bool) (lo : nat) (hi : option nat) (greedy capture : bool)
| Eos.

(** [anchored] stands for a leading [^]; [icase] for the [i] flag. *)
Record regex : Type := { anchored : bool; icase : bool; body : list atom }.

Definition char_eq (ic : bool) (a b : ascii) : bool :=
  if ic then (Js.upcase a =? Js.upcase b)%char else (a =? b)%char.

Fixpoint eat (ic : bool) (lit s : string) : option string :=
  match lit with
  | EmptyString => Some s
  | String a lit' =>
      match s with
      | EmptyString => None
      | String b s' => if char_eq ic a b then eat ic lit' s' else None
      end
  end.

Definition below (k : nat) (hi : option nat) : bool :=
  match hi with Some h => (k <? h)%nat | None => true end.

(** A quantified character class followed by the continuation [k]; [n]
    counts the iterations done so far. *)
Fixpoint rep (cls : ascii -> bool) (lo : nat) (hi : option nat)
    (greedy capture : bool) (k : string -> option string)
    (n : nat) (s : string) {struct s} : option string :=
  let stop (_ : unit) :=
    if (lo <=? n)%nat then
      if capture then option_map (fun _ => EmptyString) (k s) else k s
    else None in
  let more (_ : unit) :=
    match s with
    | EmptyString => None
    | String c s' =>
        if cls c && below n hi then
          if capture
          then option_map (String c) (rep cls lo hi greedy capture k (S n) s')
          else rep cls lo hi greedy capture k (S n) s'
        else None
    end in
  if greedy then
    match more tt with Some r => Some r | None => stop tt end
  else
    match stop tt with Some r => Some r | None => more tt end.

(** [run ic p s]: match [p] at the start of [s]; the result is the text of
    the captured group of the first match in priority order. *)
Fixpoint run (ic : bool) (p : list atom) : string -> option string :=
  match p with
  | [] => fun _ => Some EmptyString
  | Chars lit :: p' =>
      fun s => match eat ic lit s with
               | Some s' => run ic p' s'
               | None => None
               end
  | Eos :: p' =>
      fun s => match s with
               | EmptyString => run ic p' EmptyString
               | String _ _ => None
               end
  | Rep cls lo hi greedy capture :: p' =>
      rep cls lo hi greedy capture (run ic p') 0
  end.

(** Leftmost match: start positions are tried from the left, the end of the
    input included. *)
Fixpoint search (ic : bool) (p : list atom) (s : string) : option string :=
  match run ic p s with
  | Some r => Some r
  | None =>
      match s with
      | EmptyString => None
      | String _ s' => search ic p s'
      end
  end.

(** [s.match(re)], reduced to the text of group 1. *)
Definition exec (re : regex) (s : string) : option string :=
  if anchored re then run (icase re) (body re) s
  else search (icase re) (body re) s.

(** [re.test(s)]. *)
Definition test (re : regex) (s : string) : bool :=
  match exec re s with Some _ => true | None => false end.

End Regex.

(* ------------------------------------------------------------------ *)
(** ** src/validation/vatValidation.ts *)

Module vatValidation.
Import Js Regex.

(** The [Set] of supported codes, in the order of the source. *)
Definition EU_COUNTRY_CODES : list string :=
  [ "AT"; "BE"; "BG"; "HR"; "CY"; "CZ"; "DE"; "DK"; "EE"; "EL"; "ES"; "FI"; "FR";
    "GR"; "HU"; "IE"; "IT"; "LT"; "LU"; "LV"; "MT"; "NL"; "PL"; "PT"; "RO"; "SE";
    "SI"; "SK"; "XI" ].

(** [EU_COUNTRY_CODES.has(code)]. *)
Definition has (set : list string) (x : string) : bool :=
  existsb (String.eqb x) set.

(** [/^[A-Z]{2}$/] *)
Definition COUNTRY_CODE_REGEX : regex :=
  {| anchored := true; icase := false;
     body := [Rep is_upper 2 (Some 2) true false; Eos] |}.

(** [/^[A-Z0-9]{2,12}$/] *)
Definition VAT_NUMBER_REGEX : regex :=
  {| anchored := true; icase := false;
     body := [Rep (fun c => is_upper c || is_digit c) 2 (Some 12) true false; Eos] |}.

Definition MAX_VAT_INPUT_LENGTH : nat := 20.

(** [ValidationError]: [valid] is the constant [false]. *)
Record ValidationError : Type := { error : string; message : string }.

(** [ValidationOutcome = ValidationResult | ValidationError]. *)
Inductive ValidationOutcome : Type :=
| ValidationResult (countryCode vatNumber : string)
| Rejected (e : ValidationError).

Definition normalizeVatNumber (vat : string) : string :=
  toUpperCase (replaceAll_char "-" "" (removeAll_runs is_space vat)).

Definition msg_country_shape : string :=
  "countryCode must be a two-letter ISO country code (e.g. IE, DE).".

Definition msg_country_unsupported (code : string) : string :=
  "Unsupported or invalid country code: " ++ code ++
  ". Must be an EU/EEA code supported by VIES (e.g. IE, DE, FR).".

Definition validateCountryCode (countryCode : string) : option ValidationError :=
  let code := toUpperCase countryCode in
  if negb (test COUNTRY_CODE_REGEX code) then
    Some {| error := "Invalid Input"; message := msg_country_shape |}
  else if negb (has EU_COUNTRY_CODES code) then
    Some {| error := "Invalid Input"; message := msg_country_unsupported code |}
  else None.

Definition validateVatNumber (vatNumber : string) : option ValidationError :=
  if negb (truthy vatNumber) then
    Some {| error := "Invalid Input";
            message := "vatNumber is required and cannot be empty." |}
  else if negb (test VAT_NUMBER_REGEX vatNumber) then
    Some {| error := "Invalid Input";
            message := "vatNumber must contain only letters and digits (2–12 characters after removing spaces/dashes)." |}
  else None.

(** [validateFullVatInput] on its declared parameter type [string]: the body
    after the [typeof raw !== "string"] test, which a string passes.  The
    test itself is in [validateFullVatInput_untyped] below. *)
Definition validateFullVatInput (raw : string) : ValidationOutcome :=
  let trimmed := trim raw in
  if negb (truthy trimmed) then
    Rejected {| error := "Invalid Input";
                message := "Query parameter vat_number is required (e.g. ?vat_number=IE6388047V)." |}
  else if (MAX_VAT_INPUT_LENGTH <? String.length trimmed)%nat then
    Rejected {| error := "Invalid Input";
                message := "vat_number is too long (max " ++
                           string_of_nat MAX_VAT_INPUT_LENGTH ++ " characters)." |}
  else if (String.length trimmed <? 4)%nat then
    Rejected {| error := "Invalid Input";
                message := "vat_number must start with a two-letter country code followed by the VAT number (e.g. IE6388047V)." |}
  else
    let countryCode := toUpperCase (slice_to 2 trimmed) in
    let vatNumber := normalizeVatNumber (slice_from 2 trimmed) in
    match validateCountryCode countryCode with
    | Some countryError =>
        Rejected {| error := error countryError;
                    message := "vat_number must start with a valid EU country code (e.g. IE6388047V)." |}
    | None =>
        match validateVatNumber vatNumber with
        | Some vatError => Rejected vatError
        | None => ValidationResult countryCode vatNumber
        end
    end.

(** What [req.query.vat_number] holds at run time: a string, or another
    value (an array when the parameter is repeated, an object). *)
Inductive QueryValue : Type :=
| QueryString (s : string)
| QueryOther.

(** [validateFullVatInput] on a run-time value: the [typeof raw !== "string"]
    test of lines 91-97 first, then the body above. *)
Definition validateFullVatInput_untyped (raw : QueryValue) : ValidationOutcome :=
  match raw with
  | QueryOther =>
      Rejected {| error := "Invalid Input";
                  message := "vat_number must be a string (e.g. ?vat_number=IE6388047V)." |}
  | QueryString s => validateFullVatInput s
  end.

Definition validatePathParams (countryCode vatNumberRaw : string) : ValidationOutcome :=
  let code := toUpperCase countryCode in
  let vatNumber := normalizeVatNumber vatNumberRaw in
  match validateCountryCode code with
  | Some countryError => Rejected countryError
  | None =>
      match validateVatNumber vatNumber with
      | Some vatError => Rejected vatError
      | None => ValidationResult code vatNumber
      end
  end.

End vatValidation.

(* ------------------------------------------------------------------ *)
(** ** src/services/viesService.ts *)

Module viesService.
Import Js Regex.

(** Characters a literal cannot hold directly. *)
Definition dq : string := String "034" EmptyString.
Definition nl : string := String "010" EmptyString.

Definition VIES_URL : string :=
  "https://ec.europa.eu/taxation_customs/vies/services/checkVatService".

Definition SOAP_NS : string := "urn:ec.europa.eu:taxud:vies:services:checkVat:types".

Definition escapeXml (s : string) : string :=
  replaceAll_char "'" "&apos;"
    (replaceAll_char "034" "&quot;"
       (replaceAll_char ">" "&gt;"
          (replaceAll_char "<" "&lt;"
             (replaceAll_char "&" "&amp;" s)))).

Definition buildSoapEnvelope (countryCode vatNumber : string) : string :=
  String.concat nl
    [ "<?xml version=" ++ dq ++ "1.0" ++ dq ++ " encoding=" ++ dq ++ "UTF-8" ++ dq ++ "?>";
      "<soap:Envelope xmlns:soap=" ++ dq ++ "http://schemas.xmlsoap.org/soap/envelope/" ++ dq
        ++ " xmlns:urn=" ++ dq ++ SOAP_NS ++ dq ++ ">";
      "  <soap:Body>";
      "    <urn:checkVat>";
      "      <urn:countryCode>" ++ escapeXml countryCode ++ "</urn:countryCode>";
      "      <urn:vatNumber>" ++ escapeXml vatNumber ++ "</urn:vatNumber>";
      "    </urn:checkVat>";
      "  </soap:Body>";
      "</soap:Envelope>" ].

Definition none_of (l : string) (c : ascii) : bool :=
  negb (includes l (String c EmptyString)).
Definition one_of (l : string) (c : ascii) : bool :=
  includes l (String c EmptyString).
Definition any_char (_ : ascii) : bool := true.

(** [<[^:>]*:?TAG[^>]*>([\s\S]*?)</[^:>]*:?TAG\s*>] with flag [i].  The
    tag name is spliced into the pattern; the names the source passes are
    made of letters, for which the splice is the literal text. *)
Definition tag_re_prefixed (tagName : string) : regex :=
  {| anchored := false; icase := true;
     body := [ Chars "<"; Rep (none_of ":>") 0 None true false;
               Rep (one_of ":") 0 (Some 1) true false; Chars tagName;
               Rep (none_of ">") 0 None true false; Chars ">";
               Rep any_char 0 None false true;
               Chars "</"; Rep (none_of ":>") 0 None true false;
               Rep (one_of ":") 0 (Some 1) true false; Chars tagName;
               Rep is_space 0 None true false; Chars ">" ] |}.

(** [<TAG[^>]*>([\s\S]*?)</TAG\s*>] with flag [i]. *)
Definition tag_re_plain (tagName : string) : regex :=
  {| anchored := false; icase := true;
     body := [ Chars "<"; Chars tagName;
               Rep (none_of ">") 0 None true false; Chars ">";
               Rep any_char 0 None false true;
               Chars "</"; Chars tagName;
               Rep is_space 0 None true false; Chars ">" ] |}.

Definition extractTag (xml tagName : string) : option string :=
  match exec (tag_re_prefixed tagName) xml with
  | Some g => Some (trim g)
  | None =>
      match exec (tag_re_plain tagName) xml with
      | Some g => Some (trim g)
      | None => None
      end
  end.

Record ViesResponse : Type := {
  valid : bool;
  countryCode : string;
  vatNumber : string;
  name : string;
  address : string;
  requestDate : string;
  consultationNumber : option string
}.

(** [/^\s*true\s*$/i] *)
Definition TRUE_REGEX : regex :=
  {| anchored := true; icase := true;
     body := [ Rep is_space 0 None true false; Chars "true";
               Rep is_space 0 None true false; Eos ] |}.

(** [x ?? ""] *)
Definition orEmpty (x : option string) : string :=
  match x with Some v => v | None => EmptyString end.

(** Throws an [Error], of which the message is kept. *)
Definition parseViesResponse (xml : string) : string + ViesResponse :=
  match extractTag xml "valid" with
  | None => inl "VIES response missing required 'valid' element"
  | Some validStr =>
      inr {| valid := test TRUE_REGEX validStr;
             countryCode := orEmpty (extractTag xml "countryCode");
             vatNumber := orEmpty (extractTag xml "vatNumber");
             name := orEmpty (extractTag xml "name");
             address := orEmpty (extractTag xml "address");
             requestDate := orEmpty (extractTag xml "requestDate");
             consultationNumber := extractTag xml "requestIdentifier" |}
  end.

Definition getSoapFaultString (xml : string) : option string :=
  match extractTag xml "faultstring" with
  | Some faultString => if truthy faultString then Some (trim faultString) else None
  | None => None
  end.

Inductive ViesErrorCode : Type :=
| SERVICE_UNAVAILABLE | MS_UNAVAILABLE | INVALID_INPUT | TIMEOUT | SERVER_BUSY
| SERVER_DOWN | NETWORK_ERROR | PARSE_ERROR | UNKNOWN_ERROR.

Definition code_eqb (a b : ViesErrorCode) : bool :=
  match a, b with
  | SERVICE_UNAVAILABLE, SERVICE_UNAVAILABLE | MS_UNAVAILABLE, MS_UNAVAILABLE
  | INVALID_INPUT, INVALID_INPUT | TIMEOUT, TIMEOUT | SERVER_BUSY, SERVER_BUSY
  | SERVER_DOWN, SERVER_DOWN | NETWORK_ERROR, NETWORK_ERROR
  | PARSE_ERROR, PARSE_ERROR | UNKNOWN_ERROR, UNKNOWN_ERROR => true
  | _, _ => false
  end.

(** [class ViesServiceError]; its [name] is a constant. *)
Record ViesServiceError : Type := {
  message : string;
  code : ViesErrorCode;
  statusCode : Z;
  details : option string
}.

Definition VIES_ERROR_MESSAGES (c : ViesErrorCode) : string :=
  match c with
  | INVALID_INPUT =>
      "The VAT number or country code was rejected by the EU VIES system. Please check the format and try again."
  | MS_UNAVAILABLE =>
      "The member state's validation service is temporarily unavailable. Please try again later."
  | SERVICE_UNAVAILABLE =>
      "The EU VIES service is temporarily unavailable. Please try again later."
  | SERVER_DOWN =>
      "The EU VIES service is currently down. Please try again later."
  | TIMEOUT =>
      "The request to the EU VIES service timed out. Please try again."
  | SERVER_BUSY =>
      "The EU VIES service is currently busy. Please try again in a few minutes."
  | NETWORK_ERROR =>
      "Unable to reach the EU VIES service. Check your network connection or try again later."
  | PARSE_ERROR =>
      "The EU VIES service returned an unexpected response. Please try again later."
  | UNKNOWN_ERROR =>
      "An unexpected error occurred while validating the VAT number. Please try again."
  end.

Definition toFriendlyError (c : ViesErrorCode) (status : Z)
    (rawFault : option string) : ViesServiceError :=
  {| message := VIES_ERROR_MESSAGES c; code := c; statusCode := status;
     details := rawFault |}.

Definition normalizeFault (faultString : string) : ViesErrorCode * Z :=
  let lower := toLowerCase faultString in
  if includes lower "service unavailable" || includes lower "server down" then
    (SERVICE_UNAVAILABLE, 503%Z)
  else if includes lower "ms unavailable" || includes lower "member state" then
    (MS_UNAVAILABLE, 503%Z)
  else if includes lower "invalid" || includes lower "invalid input" then
    (INVALID_INPUT, 400%Z)
  else if includes lower "timeout" || includes lower "timed out" then
    (TIMEOUT, 504%Z)
  else if includes lower "busy" || includes lower "overloaded" then
    (SERVER_BUSY, 503%Z)
  else (UNKNOWN_ERROR, 502%Z).

Definition networkCodes : list string :=
  [ "ECONNREFUSED"; "ECONNRESET"; "ENOTFOUND"; "ENETUNREACH"; "ETIMEDOUT";
    "EAI_AGAIN"; "ERR_NETWORK"; "ERR_CONNECTION_REFUSED"; "ERR_CONNECTION_RESET" ].

Definition isNetworkErrorCode (c : option string) : bool :=
  match c with
  | None => false
  | Some c' => if negb (truthy c') then false else existsb (String.eqb c') networkCodes
  end.

(** A value received as a response body: a string, or anything else. *)
Inductive JsValue : Type :=
| JsString (s : string)
| JsOther.

Record AxiosResponse : Type := { status : Z; data : JsValue }.

(** The fields of an [AxiosError] that [checkVat] reads. *)
Record AxiosError : Type := {
  ax_code : option string;
  ax_message : option string;
  ax_response : option AxiosResponse
}.

(** What [axios.post] can throw. *)
Inductive Thrown : Type :=
| ThrownAxios (ax : AxiosError)
| ThrownError (msg : string)
| ThrownOther.

Definition IP_BLOCKED_DETAIL : string :=
  "The EU VIES service blocked the request (often when called from cloud/datacenter IPs). Try again later or run the API from a different network.".

(** [if (fault)] on a [string | null]: null and [""] are falsy. *)
Definition whenTruthy (x : option string) : option string :=
  match x with
  | Some v => if truthy v then Some v else None
  | None => None
  end.

(** The fault string of an error response, when its body is a non-empty
    string holding one (lines 207-209 of the source). *)
Definition errorBodyFault (ax : AxiosError) : option string :=
  match ax_response ax with
  | Some {| data := JsString body |} =>
      if truthy body then whenTruthy (getSoapFaultString body) else None
  | _ => None
  end.

Definition statusIs (ax : AxiosError) (n : Z) : bool :=
  match ax_response ax with
  | Some r => (status r =? n)%Z
  | None => false
  end.

Definition messageHasTimeout (ax : AxiosError) : bool :=
  match ax_message ax with
  | Some m => includes (toLowerCase m) "timeout"
  | None => false
  end.

Definition codeIs (ax : AxiosError) (c : string) : bool :=
  match ax_code ax with Some c' => String.eqb c' c | None => false end.

(** [a ?? b] *)
Definition nullish (a b : option string) : option string :=
  match a with Some _ => a | None => b end.

(** The [catch] block of [checkVat]. *)
Definition classifyThrown (err : Thrown) : ViesServiceError :=
  match err with
  | ThrownAxios ax =>
      match errorBodyFault ax with
      | Some fault =>
          let '(c, st) := normalizeFault fault in toFriendlyError c st (Some fault)
      | None =>
          if codeIs ax "ECONNABORTED" || messageHasTimeout ax then
            toFriendlyError TIMEOUT 504 None
          else if statusIs ax 503 then
            toFriendlyError SERVICE_UNAVAILABLE 503 None
          else if statusIs ax 403 then
            toFriendlyError SERVICE_UNAVAILABLE 502 (Some IP_BLOCKED_DETAIL)
          else if isNetworkErrorCode (ax_code ax) then
            toFriendlyError NETWORK_ERROR 502 (nullish (ax_message ax) (ax_code ax))
          else
            let st :=
              match ax_response ax with
              | Some r =>
                  if negb (status r =? 0)%Z && (400 <=? status r)%Z
                  then status r else 502%Z
              | None => 502%Z
              end in
            toFriendlyError UNKNOWN_ERROR st (ax_message ax)
      end
  | ThrownError msg => toFriendlyError UNKNOWN_ERROR 502 (Some msg)
  | ThrownOther => toFriendlyError UNKNOWN_ERROR 502 None
  end.

(** The part of [checkVat] after the response has arrived. *)
Definition handleBody (body : JsValue) : ViesServiceError + ViesResponse :=
  match body with
  | JsOther => inl (toFriendlyError PARSE_ERROR 502 (Some "Empty response from VIES"))
  | JsString xml =>
      if (String.length (trim xml) =? 0)%nat then
        inl (toFriendlyError PARSE_ERROR 502 (Some "Empty response from VIES"))
      else
        match whenTruthy (getSoapFaultString xml) with
        | Some fault =>
            let '(c, st) := normalizeFault fault in
            inl (toFriendlyError c st (Some fault))
        | None =>
            match parseViesResponse xml with
            | inr r => inr r
            | inl detail => inl (toFriendlyError PARSE_ERROR 502 (Some detail))
            end
        end
  end.

(** [checkVat], the transport being the parameter [post]: [post url body]
    is what [axios.post] returns ([inr], the response body) or throws. *)
Definition checkVat (post : string -> string -> Thrown + JsValue)
    (countryCode vatNumber : string) : ViesServiceError + ViesResponse :=
  let envelope := buildSoapEnvelope countryCode vatNumber in
  match post VIES_URL envelope with
  | inl err => inl (classifyThrown err)
  | inr body => handleBody body
  end.

End viesService.

(* ------------------------------------------------------------------ *)
(** ** src/app.ts: the orchestrator [validateVat] *)

Module app.
Import Js viesService.

(** A value caught by [catch (err)]: a [ViesServiceError], or another
    [Error] (the fallback client throws plain ones). *)
Inductive Exn : Type :=
| ViesErr (e : ViesServiceError)
| OtherError (msg : string).

(** The two registry clients the orchestrator awaits.  [checkVat cc vn] and
    [checkVatViaVatlayer key cc vn] give what the call returns ([inr]) or
    throws ([inl]). *)
Record Clients : Type := {
  checkVat : string -> string -> Exn + ViesResponse;
  checkVatViaVatlayer : string -> string -> string -> Exn + ViesResponse
}.

(** One outbound call, as the log records it. *)
Inductive Call : Type :=
| CalledVies (countryCode vatNumber : string)
| CalledVatlayer (apiKey countryCode vatNumber : string).

(** An async computation: it may throw, and appends the calls it makes to
    the log. *)
Definition Async (A : Type) : Type := list Call -> (Exn + A) * list Call.

Definition ret {A} (a : A) : Async A := fun log => (inr a, log).
Definition throw {A} (e : Exn) : Async A := fun log => (inl e, log).

Definition tryCatch {A} (body : Async A) (handler : Exn -> Async A) : Async A :=
  fun log =>
    match body log with
    | (inr a, log') => (inr a, log')
    | (inl e, log') => handler e log'
    end.

Definition awaitCheckVat (cl : Clients) (cc vn : string) : Async ViesResponse :=
  fun log => (checkVat cl cc vn, (log ++ [CalledVies cc vn])%list).

Definition awaitVatlayer (cl : Clients) (key cc vn : string) : Async ViesResponse :=
  fun log => (checkVatViaVatlayer cl key cc vn, (log ++ [CalledVatlayer key cc vn])%list).

Notation "'try' b 'catch' e '=>' h" := (tryCatch b (fun e => h))
  (at level 10, b at level 100, e name, h at level 200).

(** [err instanceof ViesServiceError && err.code === "SERVICE_UNAVAILABLE"
    && err.statusCode === 502] *)
Definition isIpBlocked (err : Exn) : bool :=
  match err with
  | ViesErr e => code_eqb (code e) SERVICE_UNAVAILABLE && (statusCode e =? 502)%Z
  | OtherError _ => false
  end.

(** [config.vatlayerApiKey] is the parameter [vatlayerApiKey]: a string, or
    [None] when unset; the empty string is falsy. *)
Definition validateVat (vatlayerApiKey : option string) (cl : Clients)
    (countryCode vatNumber : string) : Async ViesResponse :=
  try awaitCheckVat cl countryCode vatNumber
  catch err =>
    match whenTruthy vatlayerApiKey with
    | Some key =>
        if isIpBlocked err
        then awaitVatlayer cl key countryCode vatNumber
        else throw err
    | None => throw err
    end.

(** The clients of the running service: [viesService.checkVat] over a
    transport, and a fallback client. *)
Definition liveClients (post : string -> string -> Thrown + JsValue)
    (vatlayer : string -> string -> string -> Exn + ViesResponse) : Clients :=
  {| checkVat := fun cc vn =>
       match viesService.checkVat post cc vn with
       | inl e => inl (ViesErr e)
       | inr r => inr r
       end;
     checkVatViaVatlayer := vatlayer |}.

Definition isVatlayerCall (c : Call) : bool :=
  match c with CalledVatlayer _ _ _ => true | CalledVies _ _ => false end.

Definition isViesCall (c : Call) : bool :=
  match c with CalledVies _ _ => true | CalledVatlayer _ _ _ => false end.

End app.

(* ================================================================== *)
(** * Properties *)

Import Js Regex.

(** ** Characters and strings *)

Ltac ascii_cases c := destruct c as [[] [] [] [] [] [] [] []].

Definition is_alnum (c : ascii) : bool := is_upper c || is_lower c || is_digit c.

(** Neither white space, nor a hyphen, nor a lower-case letter. *)
Definition normal_char (c : ascii) : bool :=
  negb (is_space c) && negb (c =? "-")%char && negb (is_lower c).

Lemma upcase_normal c :
  is_space c = false -> (c =? "-")%char = false -> normal_char (upcase c) = true.
Proof. ascii_cases c; vm_compute; congruence. Qed.

Lemma normal_char_fixed c :
  normal_char c = true ->
  is_space c = false /\ (c =? "-")%char = false /\ upcase c = c.
Proof. ascii_cases c; vm_compute; intuition congruence. Qed.

Lemma upcase_alnum c :
  is_lower c = false -> is_alnum c = is_upper c || is_digit c.
Proof. unfold is_alnum. intros ->. now rewrite orb_false_r. Qed.

Lemma length_append a b : String.length (a ++ b) = String.length a + String.length b.
Proof. induction a as [|c a IH]; simpl; [reflexivity | now rewrite IH]. Qed.

Lemma append_assoc a b c : (a ++ b) ++ c = a ++ (b ++ c).
Proof. induction a as [|x a IH]; simpl; [reflexivity | now rewrite IH]. Qed.

Lemma append_empty_r a : a ++ "" = a.
Proof. induction a as [|x a IH]; simpl; [reflexivity | now rewrite IH]. Qed.

Lemma all_chars_append p a b :
  all_chars p (a ++ b) = all_chars p a && all_chars p b.
Proof.
  induction a as [|x a IH]; simpl; [reflexivity|].
  now rewrite IH, andb_assoc.
Qed.

Lemma all_chars_impl (p q : ascii -> bool) s :
  (forall c, p c = true -> q c = true) ->
  all_chars p s = true -> all_chars q s = true.
Proof.
  intros Hpq. induction s as [|c s IH]; simpl; [reflexivity|].
  rewrite !andb_true_iff. intros [Hc Hs]. auto.
Qed.

Lemma trimStart_length s : String.length (trimStart s) <= String.length s.
Proof.
  induction s as [|c s IH]; simpl; [lia|].
  destruct (is_space c); simpl; lia.
Qed.

Lemma trimEnd_length s : String.length (trimEnd s) <= String.length s.
Proof.
  induction s as [|c s IH]; simpl; [lia|].
  destruct (trimEnd s) as [|d t]; [destruct (is_space c)|]; simpl in *; lia.
Qed.

Lemma trim_length s : String.length (trim s) <= String.length s.
Proof.
  unfold trim.
  pose proof (trimEnd_length (trimStart s)). pose proof (trimStart_length s). lia.
Qed.

(** ** The anchored patterns [^[cls]{lo,hi}$] *)

Lemma rep_to_end ic cls lo h s : forall n,
  n <= h ->
  rep cls lo (Some h) true false (run ic [Eos]) n s =
  if all_chars cls s && (lo <=? n + String.length s)%nat
                     && (n + String.length s <=? h)%nat
  then Some "" else None.
Proof.
  induction s as [|c s IH]; intros n Hn; simpl.
  - rewrite Nat.add_0_r.
    destruct (Nat.leb_spec lo n); simpl; [|reflexivity].
    destruct (Nat.leb_spec n h); [reflexivity | lia].
  - destruct (cls c); simpl.
    + destruct (Nat.ltb_spec n h); simpl.
      * rewrite IH by lia. replace (S n + String.length s) with (n + S (String.length s)) by lia.
        destruct (_ && _ && _); [reflexivity|].
        now destruct (lo <=? n)%nat.
      * destruct (Nat.leb_spec (n + S (String.length s)) h); [lia|].
        rewrite andb_false_r. now destruct (lo <=? n)%nat.
    + now destruct (lo <=? n)%nat.
Qed.

Lemma run_Rep ic cls lo hi g cap p s :
  run ic (Rep cls lo hi g cap :: p) s = rep cls lo hi g cap (run ic p) 0 s.
Proof. reflexivity. Qed.

Lemma run_Chars ic lit p s :
  run ic (Chars lit :: p) s =
  match eat ic lit s with Some s' => run ic p s' | None => None end.
Proof. reflexivity. Qed.

Lemma COUNTRY_CODE_REGEX_test s :
  test vatValidation.COUNTRY_CODE_REGEX s =
  all_chars is_upper s && (String.length s =? 2)%nat.
Proof.
  unfold test, exec, vatValidation.COUNTRY_CODE_REGEX; cbn [anchored icase body].
  rewrite run_Rep, rep_to_end by lia. cbn [Nat.add].
  destruct (all_chars is_upper s); cbn [andb]; [|reflexivity].
  destruct (Nat.leb_spec 2 (String.length s)), (Nat.leb_spec (String.length s) 2),
    (Nat.eqb_spec (String.length s) 2); simpl; try reflexivity; lia.
Qed.

Lemma VAT_NUMBER_REGEX_test s :
  test vatValidation.VAT_NUMBER_REGEX s =
  all_chars (fun c => is_upper c || is_digit c) s
  && (2 <=? String.length s)%nat && (String.length s <=? 12)%nat.
Proof.
  unfold test, exec, vatValidation.VAT_NUMBER_REGEX; cbn [anchored icase body].
  rewrite run_Rep, rep_to_end by lia. cbn [Nat.add].
  now destruct (_ && _ && _).
Qed.

(** ** Input validation *)

Import vatValidation.

(** Exactly two characters, both in A-Z. *)
Definition two_upper (s : string) : Prop :=
  String.length s = 2 /\ all_chars is_upper s = true.

(** The outcome is a validation error, of kind "Invalid Input". *)
Definition rejected (o : ValidationOutcome) : Prop :=
  exists e, o = Rejected e /\ error e = "Invalid Input".

Lemma has_In set x : has set x = true <-> In x set.
Proof.
  unfold has. rewrite existsb_exists. split.
  - intros [y [Hy He]]. apply String.eqb_eq in He. now subst.
  - intros H. exists x. split; [assumption | apply String.eqb_refl].
Qed.

Lemma map_chars_length f s : String.length (map_chars f s) = String.length s.
Proof. induction s as [|c s IH]; simpl; [reflexivity | now rewrite IH]. Qed.

Lemma is_upper_upcase c : is_upper (upcase c) = is_upper c || is_lower c.
Proof. ascii_cases c; reflexivity. Qed.

Lemma all_chars_map p f s :
  all_chars p (map_chars f s) = all_chars (fun c => p (f c)) s.
Proof. induction s as [|c s IH]; simpl; [reflexivity | now rewrite IH]. Qed.

Lemma all_chars_ext p q s :
  (forall c, p c = q c) -> all_chars p s = all_chars q s.
Proof. intros E. induction s as [|c s IH]; simpl; [reflexivity | now rewrite E, IH]. Qed.

Lemma two_upper_toUpperCase s :
  two_upper (toUpperCase s) <->
  String.length s = 2 /\ all_chars (fun c => is_upper c || is_lower c) s = true.
Proof.
  unfold two_upper, toUpperCase.
  rewrite map_chars_length, all_chars_map.
  now rewrite (all_chars_ext _ _ s is_upper_upcase).
Qed.

Lemma two_upper_test s :
  test COUNTRY_CODE_REGEX s = true <-> two_upper s.
Proof.
  rewrite COUNTRY_CODE_REGEX_test, andb_true_iff, Nat.eqb_eq.
  unfold two_upper. tauto.
Qed.

Lemma msg_country_distinct code :
  msg_country_shape <> msg_country_unsupported code.
Proof. unfold msg_country_shape, msg_country_unsupported. simpl. discriminate. Qed.

Lemma EU_COUNTRY_CODES_NoDup : NoDup EU_COUNTRY_CODES.
Proof.
  unfold EU_COUNTRY_CODES.
  repeat (constructor;
          [ simpl; intros H;
            repeat (destruct H as [H|H]; [discriminate H|]); exact H | ]).
  constructor.
Qed.

Lemma validateCountryCode_cases c :
  let code := toUpperCase c in
  validateCountryCode c =
    if negb (test COUNTRY_CODE_REGEX code) then
      Some {| error := "Invalid Input"; message := msg_country_shape |}
    else if negb (has EU_COUNTRY_CODES code) then
      Some {| error := "Invalid Input"; message := msg_country_unsupported code |}
    else None.
Proof. reflexivity. Qed.

Lemma validateCountryCode_error c e :
  validateCountryCode c = Some e -> error e = "Invalid Input".
Proof.
  rewrite validateCountryCode_cases. cbv zeta.
  destruct (negb _); [intros [= <-]; reflexivity|].
  destruct (negb _); [intros [= <-]; reflexivity | discriminate].
Qed.

Lemma validateVatNumber_error v e :
  validateVatNumber v = Some e -> error e = "Invalid Input".
Proof.
  unfold validateVatNumber.
  destruct (negb _); [intros [= <-]; reflexivity|].
  destruct (negb _); [intros [= <-]; reflexivity | discriminate].
Qed.

Lemma validateVatNumber_None v :
  validateVatNumber v = None <->
  (2 <= String.length v <= 12 /\
   all_chars (fun c => is_upper c || is_digit c) v = true).
Proof.
  unfold validateVatNumber. rewrite VAT_NUMBER_REGEX_test.
  destruct v as [|c v]; simpl truthy; cbn [negb].
  - split; [discriminate | simpl; lia].
  - destruct (all_chars _ (String c v)); cbn [andb negb].
    + destruct (Nat.leb_spec 2 (String.length (String c v))),
               (Nat.leb_spec (String.length (String c v)) 12);
        cbn [andb negb]; split; try discriminate; try tauto; try lia; intros; lia.
    + split; [discriminate | intros [_ H]; discriminate H].
Qed.

Lemma normalizeVatNumber_normal s :
  all_chars normal_char (normalizeVatNumber s) = true.
Proof.
  unfold normalizeVatNumber, toUpperCase.
  induction s as [|c s IH]; simpl; [reflexivity|].
  destruct (is_space c) eqn:Hs; [exact IH|]. simpl.
  destruct (c =? "-")%char eqn:Hh; [exact IH|]. simpl.
  now rewrite upcase_normal, IH.
Qed.

Lemma normalizeVatNumber_fixed s :
  all_chars normal_char s = true -> normalizeVatNumber s = s.
Proof.
  unfold normalizeVatNumber, toUpperCase.
  induction s as [|c s IH]; simpl; [reflexivity|].
  rewrite andb_true_iff. intros [Hc Hs].
  destruct (normal_char_fixed c Hc) as (-> & H2 & H3).
  simpl. rewrite H2. simpl. now rewrite H3, IH.
Qed.

Lemma normalizeVatNumber_idem s :
  normalizeVatNumber (normalizeVatNumber s) = normalizeVatNumber s.
Proof. apply normalizeVatNumber_fixed, normalizeVatNumber_normal. Qed.

Lemma normal_alnum s :
  all_chars normal_char s = true ->
  all_chars is_alnum s = all_chars (fun c => is_upper c || is_digit c) s.
Proof.
  induction s as [|c s IH]; simpl; [reflexivity|].
  rewrite andb_true_iff. intros [Hc Hs]. rewrite (IH Hs). f_equal.
  apply upcase_alnum. unfold normal_char in Hc.
  rewrite !andb_true_iff, !negb_true_iff in Hc. tauto.
Qed.

Lemma validateFullVatInput_cases raw :
  let trimmed := trim raw in
  let cc := toUpperCase (slice_to 2 trimmed) in
  let vn := normalizeVatNumber (slice_from 2 trimmed) in
  4 <= String.length trimmed <= 20 ->
  validateFullVatInput raw =
    match validateCountryCode cc with
    | Some countryError =>
        Rejected {| error := error countryError;
                    message := "vat_number must start with a valid EU country code (e.g. IE6388047V)." |}
    | None =>
        match validateVatNumber vn with
        | Some vatError => Rejected vatError
        | None => ValidationResult cc vn
        end
    end.
Proof.
  intros trimmed cc vn [Hlo Hhi]. unfold validateFullVatInput.
  fold trimmed. fold cc. fold vn.
  destruct trimmed as [|a t] eqn:E; [simpl in Hlo; lia|]. cbn [truthy negb].
  unfold MAX_VAT_INPUT_LENGTH.
  destruct (Nat.ltb_spec 20 (String.length (String a t))); [lia|].
  destruct (Nat.ltb_spec (String.length (String a t)) 4); [lia|].
  reflexivity.
Qed.

Lemma validateFullVatInput_rejected_or_normal raw :
  rejected (validateFullVatInput raw) \/
  exists cc, validateFullVatInput raw =
             ValidationResult cc (normalizeVatNumber (slice_from 2 (trim raw))).
Proof.
  unfold validateFullVatInput.
  destruct (negb _); [left; eexists; split; reflexivity|].
  destruct (_ <? _)%nat; [left; eexists; split; reflexivity|].
  destruct (_ <? _)%nat; [left; eexists; split; reflexivity|].
  destruct (validateCountryCode _) as [e|] eqn:Hc.
  - left. eexists; split; [reflexivity|]. simpl.
    eapply validateCountryCode_error; eassumption.
  - destruct (validateVatNumber _) as [e|] eqn:Hv.
    + left. eexists; split; [reflexivity|].
      eapply validateVatNumber_error; eassumption.
    + right. eexists. reflexivity.
Qed.

Lemma validateCountryCode_None c :
  validateCountryCode c = None <->
  two_upper (toUpperCase c) /\ In (toUpperCase c) EU_COUNTRY_CODES.
Proof.
  rewrite validateCountryCode_cases. cbv zeta.
  rewrite <- two_upper_test, <- has_In.
  destruct (test _ _), (has _ _); cbn [negb];
    split; try discriminate; try tauto; intros [? ?]; discriminate.
Qed.

Lemma validateCountryCode_shape c :
  ~ two_upper (toUpperCase c) ->
  validateCountryCode c =
  Some {| error := "Invalid Input"; message := msg_country_shape |}.
Proof.
  rewrite validateCountryCode_cases. cbv zeta. rewrite <- two_upper_test.
  destruct (test _ _); [intros H; now destruct H | reflexivity].
Qed.

Lemma validateCountryCode_unsupported c :
  two_upper (toUpperCase c) ->
  ~ In (toUpperCase c) EU_COUNTRY_CODES ->
  validateCountryCode c =
  Some {| error := "Invalid Input";
          message := msg_country_unsupported (toUpperCase c) |}.
Proof.
  rewrite validateCountryCode_cases. cbv zeta. rewrite <- two_upper_test, <- has_In.
  intros ->. cbn [negb].
  destruct (has _ _); [intros H; now destruct H | reflexivity].
Qed.

(** Characters of the ASCII range, on which the host's [toUpperCase] acts
    as [upcase] does. *)
Definition is_ascii (c : ascii) : bool := (nat_of_ascii c <? 128)%nat.

(** C6, as the code has it: [validateCountryCode] upper-cases its argument
    first, so it accepts exactly the inputs whose upper-cased form is two
    letters A-Z and one of the 29 codes of the allow-list ([XI] among them).
    Every input of two letters, of either case, has such a form, and among
    the inputs made of ASCII characters only these have.  A malformed shape
    and an unsupported code are rejected with two messages that never
    coincide. *)
Theorem validateCountryCode_accepts_iff :
  (forall c, validateCountryCode c = None <->
             two_upper (toUpperCase c) /\ In (toUpperCase c) EU_COUNTRY_CODES)
  /\ (forall c, String.length c = 2 ->
                all_chars (fun x => is_upper x || is_lower x) c = true ->
                two_upper (toUpperCase c))
  /\ (forall c, all_chars is_ascii c = true ->
                two_upper (toUpperCase c) ->
                String.length c = 2 /\
                all_chars (fun x => is_upper x || is_lower x) c = true)
  /\ (forall c, ~ two_upper (toUpperCase c) ->
                validateCountryCode c =
                Some {| error := "Invalid Input"; message := msg_country_shape |})
  /\ (forall c, two_upper (toUpperCase c) ->
                ~ In (toUpperCase c) EU_COUNTRY_CODES ->
                validateCountryCode c =
                Some {| error := "Invalid Input";
                        message := msg_country_unsupported (toUpperCase c) |})
  /\ (forall code, msg_country_shape <> msg_country_unsupported code)
  /\ List.length EU_COUNTRY_CODES = 29
  /\ NoDup EU_COUNTRY_CODES
  /\ In "XI" EU_COUNTRY_CODES.
Proof.
  split; [exact validateCountryCode_None|].
  split; [intros c Hl Ha; now apply two_upper_toUpperCase|].
  split; [intros c _ H; now apply two_upper_toUpperCase|].
  split; [exact validateCountryCode_shape|].
  split; [exact validateCountryCode_unsupported|].
  split; [exact msg_country_distinct|].
  split; [reflexivity|].
  split; [exact EU_COUNTRY_CODES_NoDup|].
  apply has_In. reflexivity.
Qed.

(** C6, as stated, fails at the lower-case input [ie]: it is accepted, yet
    it is not two upper-case letters and not a member of the allow-list. *)
Lemma validateCountryCode_lowercase_accepted :
  validateCountryCode "ie" = None
  /\ ~ two_upper "ie"
  /\ ~ In "ie" EU_COUNTRY_CODES.
Proof.
  split; [reflexivity|]. split.
  - intros [_ H]. discriminate H.
  - intros H. apply has_In in H. discriminate H.
Qed.

(** C7, as the code has it: [validateVatNumber] does not normalize; it
    accepts its argument exactly when the argument itself has 2 to 12
    characters, all in A-Z or 0-9.  Its callers normalize first, and on a
    normalized string it accepts exactly when the length is 2 to 12 and every
    character is alphanumeric. *)
Theorem validateVatNumber_accepts_iff :
  (forall v, validateVatNumber v = None <->
             (2 <= String.length v <= 12 /\
              all_chars (fun c => is_upper c || is_digit c) v = true))
  /\ (forall raw,
        validateVatNumber (normalizeVatNumber raw) = None <->
        (2 <= String.length (normalizeVatNumber raw) <= 12 /\
         all_chars is_alnum (normalizeVatNumber raw) = true)).
Proof.
  split; [apply validateVatNumber_None|].
  intros raw. rewrite validateVatNumber_None.
  now rewrite (normal_alnum _ (normalizeVatNumber_normal raw)).
Qed.

(** C7, as stated, fails at [ab]: normalized it is [AB], two alphanumeric
    characters, yet [validateVatNumber] rejects it (and so for [12 34]). *)
Lemma validateVatNumber_unnormalized_rejected :
  validateVatNumber "ab" =
    Some {| error := "Invalid Input";
            message := "vatNumber must contain only letters and digits (2–12 characters after removing spaces/dashes)." |}
  /\ normalizeVatNumber "ab" = "AB"
  /\ 2 <= String.length (normalizeVatNumber "ab") <= 12
  /\ all_chars is_alnum (normalizeVatNumber "ab") = true
  /\ (exists e, validateVatNumber "12 34" = Some e)
  /\ normalizeVatNumber "12 34" = "1234".
Proof.
  repeat split; try reflexivity; simpl; try lia.
  eexists; reflexivity.
Qed.

(** C5, as the code has it: the input is trimmed first and the two length
    guards apply to the trimmed text.  Trimmed text over 20 or under 4
    characters (so every raw input under 4 characters) is rejected as Invalid
    Input; otherwise the first two characters, upper-cased, are the country
    code, the rest is normalized, and both validators are applied again.
    The four examples of the claim hold. *)
Theorem validateFullVatInput_spec :
  (forall raw, 20 < String.length (trim raw) -> rejected (validateFullVatInput raw))
  /\ (forall raw, String.length (trim raw) < 4 -> rejected (validateFullVatInput raw))
  /\ (forall raw, String.length raw < 4 -> rejected (validateFullVatInput raw))
  /\ (forall raw,
        let cc := toUpperCase (slice_to 2 (trim raw)) in
        let vn := normalizeVatNumber (slice_from 2 (trim raw)) in
        4 <= String.length (trim raw) <= 20 ->
        validateFullVatInput raw =
          match validateCountryCode cc with
          | Some countryError =>
              Rejected {| error := error countryError;
                          message := "vat_number must start with a valid EU country code (e.g. IE6388047V)." |}
          | None =>
              match validateVatNumber vn with
              | Some vatError => Rejected vatError
              | None => ValidationResult cc vn
              end
          end)
  /\ (forall raw e, validateFullVatInput raw = Rejected e -> error e = "Invalid Input")
  /\ validateFullVatInput "IE6388047V" = ValidationResult "IE" "6388047V"
  /\ rejected (validateFullVatInput "")
  /\ rejected (validateFullVatInput "1234567890123456789012345")
  /\ rejected (validateFullVatInput "I6").
Proof.
  assert (Hshort : forall raw, String.length (trim raw) < 4 ->
                               rejected (validateFullVatInput raw)).
  { intros raw H. destruct (validateFullVatInput_rejected_or_normal raw) as [|[cc Hcc]];
      [assumption|]. exfalso. revert Hcc. unfold validateFullVatInput.
    destruct (negb _); [discriminate|].
    destruct (_ <? _)%nat; [discriminate|].
    destruct (Nat.ltb_spec (String.length (trim raw)) 4); [discriminate | lia]. }
  split.
  { intros raw H. destruct (validateFullVatInput_rejected_or_normal raw) as [|[cc Hcc]];
      [assumption|]. exfalso. revert Hcc. unfold validateFullVatInput, MAX_VAT_INPUT_LENGTH.
    destruct (negb _); [discriminate|].
    destruct (Nat.ltb_spec 20 (String.length (trim raw))); [discriminate | lia]. }
  split; [exact Hshort|].
  split.
  { intros raw H. apply Hshort. pose proof (trim_length raw). lia. }
  split; [exact validateFullVatInput_cases|].
  split.
  { intros raw e H.
    destruct (validateFullVatInput_rejected_or_normal raw) as [[e' [He Hk]]|[cc Hcc]];
      congruence. }
  split; [reflexivity|].
  repeat split; eexists; split; reflexivity.
Qed.

(** C5, as stated, fails at a 21-character raw input: ten identifier
    characters followed by eleven spaces are accepted. *)
Lemma validateFullVatInput_long_raw_accepted :
  String.length "IE6388047V           " = 21
  /\ validateFullVatInput "IE6388047V           " = ValidationResult "IE" "6388047V".
Proof. split; reflexivity. Qed.

(** C10: [normalizeVatNumber] is idempotent, and the VAT number of every
    successful outcome of [validatePathParams] and of [validateFullVatInput]
    is a fixed point of it. *)
Theorem normalizeVatNumber_idempotent :
  (forall s, normalizeVatNumber (normalizeVatNumber s) = normalizeVatNumber s)
  /\ (forall countryCode vatNumberRaw cc vn,
        validatePathParams countryCode vatNumberRaw = ValidationResult cc vn ->
        normalizeVatNumber vn = vn)
  /\ (forall raw cc vn,
        validateFullVatInput raw = ValidationResult cc vn ->
        normalizeVatNumber vn = vn).
Proof.
  split; [apply normalizeVatNumber_idem|]. split.
  - intros countryCode vatNumberRaw cc vn. unfold validatePathParams.
    destruct (validateCountryCode _); [discriminate|].
    destruct (validateVatNumber _); [discriminate|].
    intros [= _ <-]. apply normalizeVatNumber_idem.
  - intros raw cc vn H.
    destruct (validateFullVatInput_rejected_or_normal raw) as [[e [He _]]|[cc' Hcc]].
    + congruence.
    + rewrite Hcc in H. injection H as _ <-. apply normalizeVatNumber_idem.
Qed.

(** ** Fault classification *)

Import viesService.

(** [pat] occurs in [s] up to the case of letters: some substring of [s]
    reads [pat] once lower-cased. *)
Definition mentions (s pat : string) : Prop :=
  exists a m b, s = a ++ m ++ b /\ toLowerCase m = pat.

Lemma startsWith_spec p s :
  startsWith p s = true <-> exists b, s = p ++ b.
Proof.
  revert s. induction p as [|x p IH]; intros s; simpl.
  - split; [intros _; now exists s | reflexivity].
  - destruct s as [|y s].
    + split; [discriminate | intros [b Hb]; discriminate Hb].
    + rewrite andb_true_iff, Ascii.eqb_eq, IH. split.
      * intros [-> [b ->]]. now exists b.
      * intros [b [= -> ->]]. split; [reflexivity | now exists b].
Qed.

Lemma includes_spec s p :
  includes s p = true <-> exists a b, s = a ++ p ++ b.
Proof.
  induction s as [|c s IH].
  - simpl. rewrite orb_false_r, startsWith_spec. split.
    + intros [b Hb]. now exists "", b.
    + intros [[|x a] [b Hb]]; [now exists b | discriminate Hb].
  - cbn [includes]. rewrite orb_true_iff, startsWith_spec, IH. split.
    + intros [[b Hb] | [a [b Hb]]].
      * now exists "", b.
      * exists (String c a), b. simpl. now rewrite Hb.
    + intros [[|x a] [b Hb]].
      * left. now exists b.
      * right. injection Hb as -> ->. now exists a, b.
Qed.

Lemma map_chars_append f a b :
  map_chars f (a ++ b) = map_chars f a ++ map_chars f b.
Proof. induction a as [|x a IH]; simpl; [reflexivity | now rewrite IH]. Qed.

Lemma map_chars_append_inv f s x y :
  map_chars f s = x ++ y ->
  exists s1 s2, s = s1 ++ s2 /\ map_chars f s1 = x /\ map_chars f s2 = y.
Proof.
  revert s. induction x as [|c x IH]; intros s H.
  - now exists "", s.
  - destruct s as [|d s]; [discriminate H|].
    simpl in H. injection H as Hc Hs.
    destruct (IH s Hs) as (s1 & s2 & -> & H1 & H2).
    exists (String d s1), s2. simpl. now rewrite Hc, H1.
Qed.

Lemma includes_toLowerCase s pat :
  includes (toLowerCase s) pat = true <-> mentions s pat.
Proof.
  rewrite includes_spec. unfold mentions, toLowerCase. split.
  - intros (a & b & H).
    apply map_chars_append_inv in H as (s1 & s' & -> & _ & H).
    apply map_chars_append_inv in H as (m & s2 & -> & Hm & _).
    now exists s1, m, s2.
  - intros (a & m & b & -> & Hm).
    exists (map_chars downcase a), (map_chars downcase b).
    now rewrite !map_chars_append, Hm.
Qed.

Lemma mentions_longer s p q : mentions s (p ++ q) -> mentions s p.
Proof.
  intros (a & m & b & -> & Hm).
  apply map_chars_append_inv in Hm as (m1 & m2 & -> & H1 & _).
  exists a, m1, (m2 ++ b). now rewrite append_assoc.
Qed.

(** The five tests of [normalizeFault], in the order of the source. *)
Definition rule_service (f : string) : Prop :=
  mentions f "service unavailable" \/ mentions f "server down".
Definition rule_member_state (f : string) : Prop :=
  mentions f "ms unavailable" \/ mentions f "member state".
Definition rule_invalid (f : string) : Prop := mentions f "invalid".
Definition rule_timeout (f : string) : Prop :=
  mentions f "timeout" \/ mentions f "timed out".
Definition rule_busy (f : string) : Prop :=
  mentions f "busy" \/ mentions f "overloaded".

Lemma normalizeFault_tests f :
  exists b1 b2 b3 b4 b5 : bool,
    (b1 = true <-> rule_service f) /\ (b2 = true <-> rule_member_state f) /\
    (b3 = true <-> rule_invalid f) /\ (b4 = true <-> rule_timeout f) /\
    (b5 = true <-> rule_busy f) /\
    normalizeFault f =
      if b1 then (SERVICE_UNAVAILABLE, 503%Z)
      else if b2 then (MS_UNAVAILABLE, 503%Z)
      else if b3 then (INVALID_INPUT, 400%Z)
      else if b4 then (TIMEOUT, 504%Z)
      else if b5 then (SERVER_BUSY, 503%Z)
      else (UNKNOWN_ERROR, 502%Z).
Proof.
  unfold normalizeFault. cbv zeta.
  exists (includes (toLowerCase f) "service unavailable" || includes (toLowerCase f) "server down"),
         (includes (toLowerCase f) "ms unavailable" || includes (toLowerCase f) "member state"),
         (includes (toLowerCase f) "invalid" || includes (toLowerCase f) "invalid input"),
         (includes (toLowerCase f) "timeout" || includes (toLowerCase f) "timed out"),
         (includes (toLowerCase f) "busy" || includes (toLowerCase f) "overloaded").
  unfold rule_service, rule_member_state, rule_invalid, rule_timeout, rule_busy.
  rewrite !orb_true_iff, !includes_toLowerCase.
  split; [tauto|]. split; [tauto|]. split.
  { split; [|now left].
    intros [H|H]; [exact H|]. exact (mentions_longer f "invalid" " input" H). }
  split; [tauto|]. split; [tauto|]. reflexivity.
Qed.

(** C2: fault classification is case-insensitive substring matching in the
    stated priority order, each rule applying only when no earlier one does;
    a fault string mentioning both "busy" and "invalid" never classifies as
    SERVER_BUSY: it is INVALID_INPUT unless one of the two rules before it
    applies. *)
Theorem normalizeFault_priority (f : string) :
  (rule_service f -> normalizeFault f = (SERVICE_UNAVAILABLE, 503%Z))
  /\ (~ rule_service f -> rule_member_state f ->
      normalizeFault f = (MS_UNAVAILABLE, 503%Z))
  /\ (~ rule_service f -> ~ rule_member_state f -> rule_invalid f ->
      normalizeFault f = (INVALID_INPUT, 400%Z))
  /\ (~ rule_service f -> ~ rule_member_state f -> ~ rule_invalid f ->
      rule_timeout f -> normalizeFault f = (TIMEOUT, 504%Z))
  /\ (~ rule_service f -> ~ rule_member_state f -> ~ rule_invalid f ->
      ~ rule_timeout f -> rule_busy f -> normalizeFault f = (SERVER_BUSY, 503%Z))
  /\ (~ rule_service f -> ~ rule_member_state f -> ~ rule_invalid f ->
      ~ rule_timeout f -> ~ rule_busy f -> normalizeFault f = (UNKNOWN_ERROR, 502%Z))
  /\ (mentions f "busy" -> mentions f "invalid" ->
      normalizeFault f = (SERVICE_UNAVAILABLE, 503%Z) \/
      normalizeFault f = (MS_UNAVAILABLE, 503%Z) \/
      normalizeFault f = (INVALID_INPUT, 400%Z))
  /\ (mentions f "busy" -> mentions f "invalid" ->
      ~ rule_service f -> ~ rule_member_state f ->
      normalizeFault f = (INVALID_INPUT, 400%Z)).
Proof.
  destruct (normalizeFault_tests f)
    as (b1 & b2 & b3 & b4 & b5 & H1 & H2 & H3 & H4 & H5 & ->).
  unfold rule_invalid in *.
  destruct b1, b2, b3, b4, b5; repeat split; intros;
    try reflexivity; try (left; reflexivity); try (right; left; reflexivity);
    try (right; right; reflexivity); exfalso;
    repeat match goal with
           | H : true = true <-> _ |- _ => destruct H as [H _]; specialize (H eq_refl)
           | H : false = true <-> _ |- _ => destruct H as [_ H]
           end; unfold rule_busy in *; tauto || (intuition discriminate).
Qed.

Example normalizeFault_ms_unavailable :
  normalizeFault "MS Unavailable" = (MS_UNAVAILABLE, 503%Z).
Proof. reflexivity. Qed.

Example normalizeFault_busy_and_invalid :
  normalizeFault "Server BUSY: Invalid request" = (INVALID_INPUT, 400%Z).
Proof. reflexivity. Qed.

Lemma normalizeFault_service_status f st :
  normalizeFault f = (SERVICE_UNAVAILABLE, st) -> st = 503%Z.
Proof.
  destruct (normalizeFault_tests f) as (b1 & b2 & b3 & b4 & b5 & _ & _ & _ & _ & _ & ->).
  destruct b1, b2, b3, b4, b5; congruence.
Qed.

(** ** Transport failures *)


(** The failure carries an upstream response of status [n]. *)
Definition upstreamStatus (ax : AxiosError) (n : Z) : Prop :=
  exists r, ax_response ax = Some r /\ status r = n.



Lemma statusIs_test ax n : statusIs ax n = true <-> upstreamStatus ax n.
Proof.
  unfold statusIs, upstreamStatus. destruct (ax_response ax) as [r|].
  - rewrite Z.eqb_eq. split.
    + intros H. now exists r.
    + now intros (r' & [= <-] & H).
  - split; [discriminate | now intros (r' & [=] & _)].
Qed.



(** A 403 answered with plain text, as a blocked caller receives it. *)
Definition blocked_403 : AxiosError :=
  {| ax_code := Some "ERR_BAD_REQUEST";
     ax_message := Some "Request failed with status code 403";
     ax_response := Some {| status := 403; data := JsString "Forbidden" |} |}.

(** What is thrown by the transport and is not an Axios error is
    UNKNOWN_ERROR at 502, whatever its message. *)
Lemma classifyThrown_not_axios :
  (forall msg, classifyThrown (ThrownError msg) =
               toFriendlyError UNKNOWN_ERROR 502 (Some msg))
  /\ classifyThrown ThrownOther = toFriendlyError UNKNOWN_ERROR 502 None.
Proof. split; reflexivity. Qed.

(** ** The fallback rule of the orchestrator *)

Import app.

(** A fallback credential is configured: the key is set and not empty. *)
Definition fallbackConfigured (key : option string) : Prop :=
  exists k, key = Some k /\ k <> "".

(** The IP-blocking signature: a [ViesServiceError] with code
    SERVICE_UNAVAILABLE at status 502. *)
Definition ipBlocked (err : Exn) : Prop :=
  exists e, err = ViesErr e /\ code e = SERVICE_UNAVAILABLE /\ statusCode e = 502%Z.

Definition vatlayerCalls (log : list Call) : nat :=
  List.length (filter isVatlayerCall log).

Definition viesCalls (log : list Call) : nat :=
  List.length (filter isViesCall log).

Lemma whenTruthy_Some key k :
  whenTruthy key = Some k <-> key = Some k /\ k <> "".
Proof.
  unfold whenTruthy. destruct key as [[|c v]|]; simpl.
  - split; [discriminate | intros [[= <-] H]; now destruct H].
  - split; [intros [= <-]; split; [reflexivity | discriminate] | now intros [[= <-] _]].
  - split; [discriminate | now intros [[=] _]].
Qed.

Lemma whenTruthy_None key : whenTruthy key = None <-> ~ fallbackConfigured key.
Proof.
  unfold fallbackConfigured. split.
  - intros H (k & Hk). apply whenTruthy_Some in Hk. congruence.
  - intros H. destruct (whenTruthy key) as [k|] eqn:E; [|reflexivity].
    destruct H. exists k. now apply whenTruthy_Some.
Qed.

Lemma code_eqb_eq a b : code_eqb a b = true <-> a = b.
Proof. destruct a, b; simpl; split; congruence. Qed.

Lemma isIpBlocked_test err : isIpBlocked err = true <-> ipBlocked err.
Proof.
  unfold isIpBlocked, ipBlocked. destruct err as [e|msg].
  - rewrite andb_true_iff, code_eqb_eq, Z.eqb_eq. split.
    + intros [Hc Hs]. now exists e.
    + now intros (e' & [= <-] & Hc & Hs).
  - split; [discriminate | now intros (e' & [=] & _)].
Qed.

Lemma validateVat_unfold key cl cc vn log :
  validateVat key cl cc vn log =
  match checkVat cl cc vn with
  | inr r => (inr r, log ++ [CalledVies cc vn])%list
  | inl err =>
      match whenTruthy key with
      | Some k =>
          if isIpBlocked err
          then (checkVatViaVatlayer cl k cc vn,
                (log ++ [CalledVies cc vn]) ++ [CalledVatlayer k cc vn])%list
          else (inl err, log ++ [CalledVies cc vn])%list
      | None => (inl err, log ++ [CalledVies cc vn])%list
      end
  end.
Proof.
  unfold validateVat, tryCatch, awaitCheckVat, awaitVatlayer, throw.
  destruct (checkVat cl cc vn) as [err|r]; [|reflexivity].
  destruct (whenTruthy key); [|reflexivity].
  now destruct (isIpBlocked err).
Qed.

Lemma vatlayerCalls_app l1 l2 :
  vatlayerCalls (l1 ++ l2) = vatlayerCalls l1 + vatlayerCalls l2.
Proof. unfold vatlayerCalls. now rewrite filter_app, length_app. Qed.

Lemma viesCalls_app l1 l2 : viesCalls (l1 ++ l2) = viesCalls l1 + viesCalls l2.
Proof. unfold viesCalls. now rewrite filter_app, length_app. Qed.

(** C1: when [checkVat] throws [err], [validateVat] calls the fallback
    client, once, exactly when a fallback credential is configured and [err]
    is a [ViesServiceError] with code SERVICE_UNAVAILABLE at status 502; its
    outcome is then the outcome of that one call, a failure of it included,
    unchanged.  In every other case [err] itself is rethrown.  The registry
    is never called a second time. *)
Theorem validateVat_fallback_rule
    (key : option string) (cl : Clients) (cc vn : string) (err : Exn)
    (log : list Call) :
  checkVat cl cc vn = inl err ->
  (fallbackConfigured key /\ ipBlocked err ->
   exists k, key = Some k /\
     validateVat key cl cc vn log =
     (checkVatViaVatlayer cl k cc vn,
      (log ++ [CalledVies cc vn; CalledVatlayer k cc vn])%list))
  /\ (~ (fallbackConfigured key /\ ipBlocked err) ->
      validateVat key cl cc vn log = (inl err, (log ++ [CalledVies cc vn])%list))
  /\ (vatlayerCalls (snd (validateVat key cl cc vn log)) = S (vatlayerCalls log)
      <-> fallbackConfigured key /\ ipBlocked err)
  /\ (vatlayerCalls (snd (validateVat key cl cc vn log)) = vatlayerCalls log
      <-> ~ (fallbackConfigured key /\ ipBlocked err))
  /\ viesCalls (snd (validateVat key cl cc vn log)) = S (viesCalls log).
Proof.
  intros Herr. rewrite validateVat_unfold, Herr.
  pose proof (whenTruthy_None key) as Hnone.
  pose proof (isIpBlocked_test err) as Hip.
  assert (Hone : forall k, vatlayerCalls [CalledVatlayer k cc vn] = 1) by reflexivity.
  assert (Hzero : vatlayerCalls [CalledVies cc vn] = 0) by reflexivity.
  assert (Hvies : viesCalls [CalledVies cc vn] = 1) by reflexivity.
  assert (Hvies0 : forall k, viesCalls [CalledVatlayer k cc vn] = 0) by reflexivity.
  destruct (whenTruthy key) as [k|] eqn:Hk.
  - assert (Hcfg : fallbackConfigured key)
      by (exists k; now apply whenTruthy_Some).
    apply whenTruthy_Some in Hk as [-> Hne].
    destruct (isIpBlocked err) eqn:Hb; cbn [snd];
      rewrite ?vatlayerCalls_app, ?viesCalls_app, ?Hone, ?Hzero, ?Hvies, ?Hvies0.
    + assert (Hblk : ipBlocked err) by now apply Hip.
      split; [intros _; exists k; split; [reflexivity | now rewrite <- app_assoc]|].
      split; [tauto|]. split; [split; [tauto | lia]|].
      split; [split; [lia | tauto] | lia].
    + assert (Hblk : ~ ipBlocked err) by (intros H; apply Hip in H; discriminate H).
      split; [tauto|]. split; [reflexivity|]. split; [split; [lia | tauto]|].
      split; [split; [tauto | lia] | lia].
  - assert (Hcfg : ~ fallbackConfigured key) by now apply Hnone.
    cbn [snd]. rewrite ?vatlayerCalls_app, ?viesCalls_app, ?Hzero, ?Hvies.
    split; [tauto|]. split; [reflexivity|]. split; [split; [lia | tauto]|].
    split; [split; [tauto | lia] | lia].
Qed.

(** Without an error of [checkVat] there is no fallback call. *)
Lemma validateVat_success key cl cc vn r log :
  checkVat cl cc vn = inr r ->
  validateVat key cl cc vn log = (inr r, (log ++ [CalledVies cc vn])%list).
Proof. intros H. now rewrite validateVat_unfold, H. Qed.

(** A registry that blocks the caller and a fallback provider that fails. *)
Definition blockedClients : Clients :=
  {| checkVat := fun _ _ =>
       inl (ViesErr (toFriendlyError SERVICE_UNAVAILABLE 502 (Some IP_BLOCKED_DETAIL)));
     checkVatViaVatlayer := fun _ _ _ =>
       inl (OtherError "Vatlayer returned an invalid response") |}.

(** The theorem at [blockedClients] with a key: one fallback call, whose
    failure is what the caller gets. *)
Lemma validateVat_fallback_rule_witness :
  exists k, Some "secret" = Some k /\
    validateVat (Some "secret") blockedClients "IE" "6388047V" [] =
    (inl (OtherError "Vatlayer returned an invalid response"),
     [CalledVies "IE" "6388047V"; CalledVatlayer k "IE" "6388047V"]).
Proof.
  refine (proj1 (validateVat_fallback_rule (Some "secret") blockedClients
                   "IE" "6388047V" _ [] eq_refl) _).
  split.
  - exists "secret". split; [reflexivity | discriminate].
  - eexists. repeat split; reflexivity.
Defined.

(** ** Trimming *)

Definition nonspace (c : ascii) : bool := negb (is_space c).

Lemma trimEnd_cons c s :
  trimEnd (String c s) =
  match trimEnd s with
  | EmptyString => if is_space c then EmptyString else String c EmptyString
  | String d t => String c (String d t)
  end.
Proof. reflexivity. Qed.

Lemma trimEnd_spaces r : all_chars is_space r = true -> trimEnd r = "".
Proof.
  induction r as [|c r IH]; [reflexivity|].
  cbn [all_chars]. rewrite andb_true_iff. intros [Hc Hr].
  now rewrite trimEnd_cons, (IH Hr), Hc.
Qed.

Lemma trimEnd_split s :
  exists r, s = trimEnd s ++ r /\ all_chars is_space r = true.
Proof.
  induction s as [|c s (r & Hr & Hsp)]; [now exists ""|].
  rewrite trimEnd_cons. destruct (trimEnd s) as [|d t].
  - simpl in Hr. subst r. destruct (is_space c) eqn:Hc.
    + exists (String c s). split; [reflexivity|]. simpl. now rewrite Hc.
    + now exists s.
  - exists r. split; [|assumption]. simpl. now rewrite Hr at 1.
Qed.

Lemma trimEnd_idem s : trimEnd (trimEnd s) = trimEnd s.
Proof.
  induction s as [|c s IH]; [reflexivity|].
  rewrite trimEnd_cons. destruct (trimEnd s) as [|d t].
  - destruct (is_space c) eqn:Hc; [reflexivity|].
    rewrite trimEnd_cons. simpl. now rewrite Hc.
  - rewrite trimEnd_cons, IH. reflexivity.
Qed.

Lemma trimEnd_head c t :
  is_space c = false -> exists t', trimEnd (String c t) = String c t'.
Proof.
  intros Hc. rewrite trimEnd_cons. destruct (trimEnd t) as [|d u].
  - rewrite Hc. now exists "".
  - now exists (String d u).
Qed.

Lemma trimStart_head s :
  trimStart s = "" \/ exists c t, trimStart s = String c t /\ is_space c = false.
Proof.
  induction s as [|c s IH]; [now left|]. simpl.
  destruct (is_space c) eqn:Hc; [exact IH|]. right. now exists c, s.
Qed.

Lemma trim_idem s : trim (trim s) = trim s.
Proof.
  unfold trim. destruct (trimStart_head s) as [->|(c & t & -> & Hc)]; [reflexivity|].
  destruct (trimEnd_head c t Hc) as [t' E].
  pose proof (trimEnd_idem (String c t)) as Hi. rewrite E in *.
  simpl trimStart. now rewrite Hc.
Qed.

Lemma trim_blank s : trim s = "" <-> all_chars is_space s = true.
Proof.
  unfold trim. induction s as [|c s IH]; [now split|].
  cbn [trimStart all_chars].
  destruct (is_space c) eqn:Hc; [exact IH|]. cbn [andb].
  destruct (trimEnd_head c s Hc) as [t' E]. rewrite E.
  split; discriminate.
Qed.

Lemma trimEnd_nonspace_spaces m r :
  all_chars nonspace m = true -> all_chars is_space r = true ->
  trimEnd (m ++ r) = m.
Proof.
  intros Hm Hr. induction m as [|c m IH]; [now apply trimEnd_spaces|].
  cbn [all_chars] in Hm. apply andb_true_iff in Hm as [Hc Hm].
  cbn [append]. rewrite trimEnd_cons, (IH Hm).
  unfold nonspace in Hc. apply negb_true_iff in Hc.
  destruct m; [now rewrite Hc | reflexivity].
Qed.

Lemma trim_nonspace s : all_chars nonspace s = true -> trim s = s.
Proof.
  intros H. unfold trim.
  assert (trimStart s = s) as ->.
  { destruct s as [|c s]; [reflexivity|]. simpl in *.
    apply andb_true_iff in H as [Hc _]. unfold nonspace in Hc.
    apply negb_true_iff in Hc. now rewrite Hc. }
  rewrite <- (append_empty_r s) at 1. now apply trimEnd_nonspace_spaces.
Qed.

(** ** Matching: literals, stars, the captured group, the search *)

Definition not_lt (c : ascii) : bool := negb (c =? "<")%char.

Lemma downcase_upcase c : downcase (upcase c) = downcase c.
Proof. ascii_cases c; reflexivity. Qed.

Lemma upcase_downcase c : upcase (downcase c) = upcase c.
Proof. ascii_cases c; reflexivity. Qed.

Lemma char_eq_icase a b : char_eq true a b = true <-> downcase a = downcase b.
Proof.
  unfold char_eq. rewrite Ascii.eqb_eq. split; intros H.
  - now rewrite <- (downcase_upcase a), H, downcase_upcase.
  - now rewrite <- (upcase_downcase a), H, upcase_downcase.
Qed.

Lemma char_eq_refl ic c : char_eq ic c c = true.
Proof. unfold char_eq. destruct ic; apply Ascii.eqb_refl. Qed.

Lemma char_eq_lt ic c : char_eq ic "<" c = negb (not_lt c).
Proof. destruct ic; ascii_cases c; reflexivity. Qed.

Lemma eat_self ic lit s : eat ic lit (lit ++ s) = Some s.
Proof.
  induction lit as [|a lit IH]; [reflexivity|].
  simpl. now rewrite char_eq_refl.
Qed.

(** Under the [i] flag a literal consumes exactly the texts that read as the
    literal once lower-cased. *)
Lemma eat_icase lit s r :
  eat true lit s = Some r <->
  exists m, s = m ++ r /\ toLowerCase m = toLowerCase lit.
Proof.
  revert s. induction lit as [|a lit IH]; intros s.
  - simpl. split.
    + intros [= ->]. now exists "".
    + intros ([|x m] & -> & Hm); [reflexivity | discriminate Hm].
  - destruct s as [|b s]; cbn [eat].
    + split; [discriminate|]. intros ([|x m] & Hs & Hm); discriminate.
    + destruct (char_eq true a b) eqn:E.
      * apply char_eq_icase in E. rewrite IH. split.
        -- intros (m & -> & Hm). exists (String b m).
           unfold toLowerCase in *. simpl. now rewrite Hm, E.
        -- intros ([|x m] & Hs & Hm); [discriminate Hm|].
           injection Hs as <- ->. injection Hm as _ Hm. now exists m.
      * split; [discriminate|].
        intros ([|x m] & Hs & Hm); [discriminate Hm|].
        injection Hs as <- ->. injection Hm as Hx _.
        symmetry in Hx. apply char_eq_icase in Hx. congruence.
Qed.

Lemma run_lt_fail ic p c t :
  not_lt c = true -> run ic (Chars "<" :: p) (String c t) = None.
Proof.
  intros H. rewrite run_Chars. cbn [eat]. now rewrite char_eq_lt, H.
Qed.

Lemma run_lt_empty ic p : run ic (Chars "<" :: p) "" = None.
Proof. reflexivity. Qed.

(** A greedy star takes all of [w] when what follows [w] is outside the
    class and the continuation succeeds there. *)
Lemma rep_greedy_all cls k w s r : forall n,
  all_chars cls w = true ->
  match s with EmptyString => True | String c _ => cls c = false end ->
  k s = Some r ->
  rep cls 0 None true false k n (w ++ s) = Some r.
Proof.
  induction w as [|c w IH]; intros n Hw Hs Hk.
  - destruct s as [|c s]; simpl; [exact Hk|]. now rewrite Hs.
  - cbn [all_chars] in Hw. apply andb_true_iff in Hw as [Hc Hw].
    simpl. rewrite Hc. simpl. now rewrite (IH (S n) Hw Hs Hk).
Qed.

(** A greedy star of white space before a continuation that fails on white
    space: the continuation runs on the text with its leading white space
    dropped. *)
Lemma rep_spaces_then k s : forall n,
  (forall c t, is_space c = true -> k (String c t) = None) ->
  rep is_space 0 None true false k n s = k (trimStart s).
Proof.
  induction s as [|c s IH]; intros n Hk; [reflexivity|].
  simpl. destruct (is_space c) eqn:Hc; simpl.
  - rewrite (IH (S n) Hk). destruct (k (trimStart s)) eqn:E; [reflexivity|].
    now apply Hk.
  - reflexivity.
Qed.

Lemma rep_star_to_end ic cls s : forall n,
  rep cls 0 None true false (run ic [Eos]) n s =
  if all_chars cls s then Some "" else None.
Proof.
  induction s as [|c s IH]; intros n; [reflexivity|].
  simpl. destruct (cls c); simpl; [|reflexivity].
  rewrite IH. now destruct (all_chars cls s).
Qed.

(** [c?] with [c] present. *)
Lemma rep_optional_taken cls k c s r :
  cls c = true -> k s = Some r ->
  rep cls 0 (Some 1) true false k 0 (String c s) = Some r.
Proof.
  intros Hc Hk. simpl. rewrite Hc. simpl.
  destruct s as [|d s]; simpl; [now rewrite Hk|].
  rewrite andb_false_r. now rewrite Hk.
Qed.

(** The lazy captured group stops at the first place where the continuation
    succeeds; a continuation that needs [<] fails inside [w]. *)
Lemma rep_lazy_capture k w s r : forall n,
  (forall c t, not_lt c = true -> k (String c t) = None) ->
  all_chars not_lt w = true ->
  k s = Some r ->
  rep any_char 0 None false true k n (w ++ s) = Some w.
Proof.
  induction w as [|c w IH]; intros n Hk Hw Hs.
  - destruct s as [|c s]; simpl; now rewrite Hs.
  - cbn [all_chars] in Hw. apply andb_true_iff in Hw as [Hc Hw].
    simpl. rewrite (Hk _ _ Hc). simpl. now rewrite (IH (S n) Hk Hw Hs).
Qed.

Lemma search_hit ic p s r : run ic p s = Some r -> search ic p s = Some r.
Proof. intros H. destruct s; simpl; now rewrite H. Qed.

Lemma search_skip ic p w s :
  all_chars not_lt w = true ->
  search ic (Chars "<" :: p) (w ++ s) = search ic (Chars "<" :: p) s.
Proof.
  induction w as [|c w IH]; intros Hw; [reflexivity|].
  cbn [all_chars] in Hw. apply andb_true_iff in Hw as [Hc Hw].
  cbn [append search]. now rewrite (run_lt_fail _ _ _ _ Hc), (IH Hw).
Qed.

Lemma search_no_lt ic p w :
  all_chars not_lt w = true -> search ic (Chars "<" :: p) w = None.
Proof.
  intros Hw. rewrite <- (append_empty_r w), (search_skip _ _ _ _ Hw). reflexivity.
Qed.

(** The closing tag [</ns:TAG>] under [</[^:>]*:?TAG\s*>]. *)
Lemma run_closing_tag tag ns post :
  all_chars (none_of ":>") ns = true ->
  run true [ Chars "</"; Rep (none_of ":>") 0 None true false;
             Rep (one_of ":") 0 (Some 1) true false; Chars tag;
             Rep is_space 0 None true false; Chars ">" ]
      ("</" ++ ns ++ ":" ++ tag ++ ">" ++ post) = Some "".
Proof.
  intros Hns. rewrite run_Chars, (eat_self true "</"), run_Rep.
  apply rep_greedy_all; [assumption | reflexivity |].
  rewrite run_Rep. apply rep_optional_taken; [reflexivity|].
  rewrite run_Chars, eat_self, run_Rep.
  apply (rep_greedy_all _ _ ""); [reflexivity | reflexivity |].
  reflexivity.
Qed.

(** An element [<ns:TAG>txt</ns:TAG>] whose text holds no [<] is matched
    from its first character, and the group is its text. *)
Lemma run_prefixed_element tag ns txt post :
  all_chars (none_of ":>") ns = true ->
  all_chars not_lt txt = true ->
  run true (body (tag_re_prefixed tag))
      ("<" ++ ns ++ ":" ++ tag ++ ">" ++ txt ++ "</" ++ ns ++ ":" ++ tag ++ ">" ++ post)
  = Some txt.
Proof.
  intros Hns Htxt. cbn [body tag_re_prefixed].
  rewrite run_Chars, (eat_self true "<"), run_Rep.
  apply rep_greedy_all; [assumption | reflexivity |].
  rewrite run_Rep. apply rep_optional_taken; [reflexivity|].
  rewrite run_Chars, eat_self, run_Rep.
  apply (rep_greedy_all _ _ ""); [reflexivity | reflexivity |].
  rewrite run_Chars. cbn [eat append]. rewrite char_eq_refl, run_Rep.
  eapply rep_lazy_capture; [|assumption|].
  - intros c t Hc. rewrite run_Chars. cbn [eat]. now rewrite char_eq_lt, Hc.
  - now apply run_closing_tag.
Qed.

(** [c?] with [c] absent. *)
Lemma rep_optional_skipped cls k s :
  match s with EmptyString => True | String c _ => cls c = false end ->
  rep cls 0 (Some 1) true false k 0 s = k s.
Proof. destruct s as [|c s]; simpl; [reflexivity | now intros ->]. Qed.

(** A greedy star gives back what it took when the continuation fails after
    every non-empty part of [w]. *)
Lemma rep_greedy_backtrack cls k w s : forall n,
  all_chars cls w = true ->
  match s with EmptyString => True | String c _ => cls c = false end ->
  (forall a b, w = a ++ b -> a <> "" -> k (b ++ s) = None) ->
  rep cls 0 None true false k n (w ++ s) = k (w ++ s).
Proof.
  induction w as [|c w IH]; intros n Hw Hs Hk.
  - destruct s as [|c s]; simpl; [reflexivity | now rewrite Hs].
  - cbn [all_chars] in Hw. apply andb_true_iff in Hw as [Hc Hw].
    simpl. rewrite Hc. simpl. rewrite (IH (S n) Hw Hs).
    + now rewrite (Hk (String c "") w eq_refl).
    + intros a b -> Ha. apply (Hk (String c a) b); [reflexivity | discriminate].
Qed.

Lemma append_split a b c d :
  a ++ b = c ++ d -> String.length a < String.length c ->
  exists x e, c = a ++ String x e /\ b = String x e ++ d.
Proof.
  revert c. induction a as [|y a IH]; intros [|z c] H Hl; simpl in Hl; try lia.
  - now exists z, c.
  - injection H as -> H. destruct (IH c H) as (x & e & -> & ->); [lia|].
    now exists x, e.
Qed.

(** The tag name does not match inside itself: a proper suffix of the name
    followed by [>] is not read as the name. *)
Lemma eat_tag_misaligned tag a b rest :
  tag = a ++ b -> a <> "" -> all_chars (none_of ":>") tag = true ->
  eat true tag (b ++ ">" ++ rest) = None.
Proof.
  intros Htag Ha Hcl. destruct (eat true tag (b ++ ">" ++ rest)) as [r|] eqn:E;
    [exfalso | reflexivity].
  apply eat_icase in E as (m & Heq & Hm).
  assert (Hlen : String.length b < String.length m).
  { unfold toLowerCase in Hm.
    rewrite <- (map_chars_length downcase m), Hm, map_chars_length, Htag, length_append.
    destruct a; [now destruct Ha | simpl; lia]. }
  destruct (append_split _ _ _ _ Heq Hlen) as (x & e & -> & Hx).
  injection Hx as <- _.
  assert (Hgt : all_chars (fun c => negb (c =? ">")%char) (toLowerCase tag) = true).
  { unfold toLowerCase. rewrite all_chars_map. revert Hcl. apply all_chars_impl.
    intros c. ascii_cases c; vm_compute; congruence. }
  rewrite <- Hm in Hgt. unfold toLowerCase in Hgt.
  rewrite map_chars_append, all_chars_append in Hgt. simpl in Hgt.
  now rewrite andb_false_r in Hgt.
Qed.

Lemma head_after_name b rest :
  all_chars (none_of ":>") b = true ->
  match b ++ ">" ++ rest with
  | EmptyString => True
  | String c _ => one_of ":" c = false
  end.
Proof.
  destruct b as [|c b]; [reflexivity|]. cbn [all_chars append].
  rewrite andb_true_iff. intros [Hc _]. revert Hc.
  ascii_cases c; vm_compute; congruence.
Qed.

(** The prefix part [[^:>]*:?] of the pattern before an unprefixed name. *)
Lemma run_name_unprefixed tag p rest r :
  all_chars (none_of ":>") tag = true ->
  run true p (">" ++ rest) = Some r ->
  run true (Rep (none_of ":>") 0 None true false
            :: Rep (one_of ":") 0 (Some 1) true false :: Chars tag :: p)
      (tag ++ ">" ++ rest) = run true p (">" ++ rest).
Proof.
  intros Hcl Hp.
  assert (Hat : forall b, all_chars (none_of ":>") b = true ->
            run true (Rep (one_of ":") 0 (Some 1) true false :: Chars tag :: p)
                (b ++ ">" ++ rest) =
            match eat true tag (b ++ ">" ++ rest) with
            | Some s' => run true p s'
            | None => None
            end).
  { intros b Hb. rewrite run_Rep, rep_optional_skipped by now apply head_after_name.
    apply run_Chars. }
  rewrite run_Rep, rep_greedy_backtrack; [| assumption | reflexivity |].
  - now rewrite Hat, eat_self.
  - intros a b Hab Ha. rewrite Hat.
    + now rewrite (eat_tag_misaligned tag a b rest Hab Ha Hcl).
    + rewrite Hab, all_chars_append in Hcl. now apply andb_true_iff in Hcl as [_ ?].
Qed.

(** An element [<TAG>txt</TAG>] without prefix, under the same pattern. *)
Lemma run_plain_element tag txt post :
  all_chars (none_of ":>") tag = true ->
  all_chars not_lt txt = true ->
  run true (body (tag_re_prefixed tag))
      ("<" ++ tag ++ ">" ++ txt ++ "</" ++ tag ++ ">" ++ post)
  = Some txt.
Proof.
  intros Hcl Htxt. cbn [body tag_re_prefixed].
  rewrite run_Chars, (eat_self true "<").
  assert (Hclose :
    run true [ Chars "</"; Rep (none_of ":>") 0 None true false;
               Rep (one_of ":") 0 (Some 1) true false; Chars tag;
               Rep is_space 0 None true false; Chars ">" ]
        ("</" ++ tag ++ ">" ++ post) = Some "").
  { rewrite run_Chars, (eat_self true "</").
    rewrite (run_name_unprefixed tag _ post ""); [reflexivity | assumption | reflexivity]. }
  assert (Hopen :
    run true [ Rep (none_of ">") 0 None true false; Chars ">";
               Rep any_char 0 None false true;
               Chars "</"; Rep (none_of ":>") 0 None true false;
               Rep (one_of ":") 0 (Some 1) true false; Chars tag;
               Rep is_space 0 None true false; Chars ">" ]
        (">" ++ txt ++ "</" ++ tag ++ ">" ++ post) = Some txt).
  { rewrite run_Rep. apply (rep_greedy_all _ _ ""); [reflexivity | reflexivity |].
    rewrite run_Chars. cbn [eat append]. rewrite char_eq_refl, run_Rep.
    eapply rep_lazy_capture; [|assumption|exact Hclose].
    intros c t Hc. rewrite run_Chars. cbn [eat]. now rewrite char_eq_lt, Hc. }
  now rewrite (run_name_unprefixed tag _ _ txt Hcl Hopen).
Qed.

(** ** Well-formed elements, and what the pattern finds *)

Definition no_gt (c : ascii) : bool := negb (c =? ">")%char.

(** Every [<] of the text is followed, further on in the text, by a [>]:
    no tag is left open at the end. *)
Fixpoint closedMarkup (s : string) : bool :=
  match s with
  | EmptyString => true
  | String c s' =>
      (if (c =? "<")%char then includes s' ">" else true) && closedMarkup s'
  end.

(** [qn] is the name [tag], bare or behind a namespace prefix. *)
Definition qualifiedName (qn tag : string) : Prop :=
  qn = tag \/
  exists ns, qn = ns ++ ":" ++ tag /\ all_chars (none_of ":>") ns = true.

(** The first mention of [tag] in [xml], in any letter case, is the name of
    a well-formed element [<qn>txt</qn>] whose text holds no [<], and the
    tags before it are closed. *)
Definition firstElement (xml tag txt : string) : Prop :=
  exists pre qn post,
    xml = pre ++ "<" ++ qn ++ ">" ++ txt ++ "</" ++ qn ++ ">" ++ post
    /\ qualifiedName qn tag
    /\ closedMarkup pre = true
    /\ ~ mentions pre (toLowerCase tag)
    /\ all_chars not_lt txt = true.

Lemma rep_sound cls lo hi g k s r : forall n,
  rep cls lo hi g false k n s = Some r ->
  exists w s', s = w ++ s' /\ all_chars cls w = true /\ k s' = Some r.
Proof.
  induction s as [|c s IH]; intros n H.
  - exists "", "". cbn [rep] in H.
    destruct g, (lo <=? n)%nat, (k "") eqn:E; try discriminate H;
      (split; [reflexivity | split; [reflexivity | congruence]]).
  - cbn [rep] in H.
    assert (Hcases :
      ((lo <=? n)%nat = true /\ k (String c s) = Some r) \/
      (cls c = true /\ rep cls lo hi g false k (S n) s = Some r)).
    { destruct (cls c), (below n hi), (lo <=? n)%nat; cbn [andb] in H;
        destruct g;
        repeat match type of H with
               | match ?x with Some _ => _ | None => _ end = _ =>
                   let E := fresh "E" in destruct x eqn:E
               end; try discriminate H;
        try (injection H as <-); auto. }
    destruct Hcases as [[_ Hk]|[Hc Hr]].
    + exists "", (String c s). split; [reflexivity | split; [reflexivity | exact Hk]].
    + destruct (IH _ Hr) as (w & s' & -> & Hw & Hk).
      exists (String c w), s'. cbn [append all_chars]. rewrite Hc, Hw.
      split; [reflexivity | split; [reflexivity | exact Hk]].
Qed.

Lemma search_sound ic p s g :
  search ic p s = Some g -> exists x y, s = x ++ y /\ run ic p y = Some g.
Proof.
  induction s as [|c s IH]; cbn [search].
  - destruct (run ic p "") eqn:E; [|discriminate]. intros [= <-]. now exists "", "".
  - destruct (run ic p (String c s)) eqn:E.
    + intros [= <-]. now exists "", (String c s).
    + intros H. destruct (IH H) as (x & y & -> & Hy). now exists (String c x), y.
Qed.

Lemma eat_lt s s' : eat true "<" s = Some s' -> s = String "<" s'.
Proof.
  destruct s as [|c s]; cbn [eat]; [discriminate|].
  rewrite char_eq_lt. destruct (not_lt c) eqn:E; cbn [negb]; [discriminate|].
  intros [= <-]. f_equal. revert E. ascii_cases c; vm_compute; congruence.
Qed.

(** What the opening part [<[^:>]*:?TAG] of the first pattern has read. *)
Lemma run_prefixed_open tag p s g :
  run true (Chars "<" :: Rep (none_of ":>") 0 None true false
            :: Rep (one_of ":") 0 (Some 1) true false :: Chars tag :: p) s = Some g ->
  exists a c m rest,
    s = "<" ++ a ++ c ++ m ++ rest
    /\ all_chars (none_of ":>") a = true
    /\ all_chars (one_of ":") c = true
    /\ toLowerCase m = toLowerCase tag.
Proof.
  rewrite run_Chars. destruct (eat true "<" s) as [s1|] eqn:E1; [|discriminate].
  apply eat_lt in E1. subst s. rewrite run_Rep. intros H.
  apply rep_sound in H as (a & s2 & -> & Ha & H). rewrite run_Rep in H.
  apply rep_sound in H as (c & s3 & -> & Hc & H). rewrite run_Chars in H.
  destruct (eat true tag s3) as [rest|] eqn:E; [|discriminate].
  apply eat_icase in E as (m & -> & Hm).
  exists a, c, m, rest. auto.
Qed.

(** What the opening part [<TAG] of the second pattern has read. *)
Lemma run_plain_open tag p s g :
  run true (Chars "<" :: Chars tag :: p) s = Some g ->
  exists m rest, s = "<" ++ m ++ rest /\ toLowerCase m = toLowerCase tag.
Proof.
  rewrite run_Chars. destruct (eat true "<" s) as [s1|] eqn:E1; [|discriminate].
  apply eat_lt in E1. subst s. rewrite run_Chars.
  destruct (eat true tag s1) as [rest|] eqn:E; [|discriminate].
  apply eat_icase in E as (m & -> & Hm). intros _. now exists m, rest.
Qed.

Lemma mentions_inside x s y p : mentions s p -> mentions (x ++ s ++ y) p.
Proof.
  intros (a & m & b & -> & Hm). exists (x ++ a), m, (b ++ y).
  now rewrite !append_assoc.
Qed.

Lemma mentions_middle a m b : mentions (a ++ m ++ b) (toLowerCase m).
Proof. now exists a, m, b. Qed.

(** What a pattern finds for [tag] lies in a text that mentions [tag]. *)
Lemma extractTag_mentions xml tag v :
  extractTag xml tag = Some v -> mentions xml (toLowerCase tag).
Proof.
  unfold extractTag.
  change (exec (tag_re_prefixed tag) xml)
    with (search true (body (tag_re_prefixed tag)) xml).
  change (exec (tag_re_plain tag) xml)
    with (search true (body (tag_re_plain tag)) xml).
  destruct (search true (body (tag_re_prefixed tag)) xml) as [g|] eqn:E1.
  { intros _. apply search_sound in E1 as (x & y & -> & Hy).
    apply run_prefixed_open in Hy as (a & c & m & rest & -> & _ & _ & Hm).
    rewrite <- Hm.
    replace (x ++ "<" ++ a ++ c ++ m ++ rest)
      with ((x ++ "<" ++ a ++ c) ++ m ++ rest) by now rewrite !append_assoc.
    apply mentions_middle. }
  destruct (search true (body (tag_re_plain tag)) xml) as [g|] eqn:E2; [|discriminate].
  intros _. apply search_sound in E2 as (x & y & -> & Hy).
  apply run_plain_open in Hy as (m & rest & -> & Hm).
  rewrite <- Hm.
  replace (x ++ "<" ++ m ++ rest) with ((x ++ "<") ++ m ++ rest)
    by now rewrite !append_assoc.
  apply mentions_middle.
Qed.

(** A pattern finds nothing for [tag] in a text that does not mention it. *)
Lemma extractTag_not_mentioned xml tag :
  ~ mentions xml (toLowerCase tag) -> extractTag xml tag = None.
Proof.
  intros Hn. destruct (extractTag xml tag) as [v|] eqn:E; [|reflexivity].
  now apply extractTag_mentions in E.
Qed.

Lemma prefix_before_gt x y u w :
  x ++ y = u ++ ">" ++ w -> all_chars no_gt x = true -> exists u', u = x ++ u'.
Proof.
  revert u. induction x as [|c x IH]; intros u H Hx; [now exists u|].
  cbn [all_chars] in Hx. apply andb_true_iff in Hx as [Hc Hx].
  destruct u as [|d u]; cbn [append] in H.
  - injection H as -> _. discriminate Hc.
  - injection H as -> H. destruct (IH u H Hx) as [u' ->]. now exists u'.
Qed.

Lemma no_gt_downcase c : no_gt (downcase c) = no_gt c.
Proof. ascii_cases c; reflexivity. Qed.

Lemma name_chars_no_gt s :
  all_chars (none_of ":>") s = true -> all_chars no_gt s = true.
Proof. apply all_chars_impl. intros c. ascii_cases c; vm_compute; congruence. Qed.

Lemma colon_no_gt s : all_chars (one_of ":") s = true -> all_chars no_gt s = true.
Proof. apply all_chars_impl. intros c. ascii_cases c; vm_compute; congruence. Qed.

Lemma same_letters_no_gt m tag :
  toLowerCase m = toLowerCase tag -> all_chars no_gt tag = true ->
  all_chars no_gt m = true.
Proof.
  intros Hm Ht.
  rewrite <- (all_chars_ext _ _ m no_gt_downcase), <- all_chars_map.
  change (map_chars downcase m) with (toLowerCase m). rewrite Hm.
  unfold toLowerCase. rewrite all_chars_map.
  now rewrite (all_chars_ext _ _ tag no_gt_downcase).
Qed.

(** The search passes over text with closed tags that does not mention the
    tag name. *)
Lemma search_skip_closed tag pre s :
  all_chars (none_of ":>") tag = true ->
  closedMarkup pre = true -> ~ mentions pre (toLowerCase tag) ->
  search true (body (tag_re_prefixed tag)) (pre ++ s) =
  search true (body (tag_re_prefixed tag)) s.
Proof.
  intros Htag. induction pre as [|c pre IH]; intros Hcl Hn; [reflexivity|].
  cbn [closedMarkup] in Hcl. apply andb_true_iff in Hcl as [Hgt Hcl].
  assert (Hn' : ~ mentions pre (toLowerCase tag)).
  { intros H. apply Hn. apply (mentions_inside (String c "") pre "") in H.
    now rewrite append_empty_r in H. }
  cbn [append search].
  destruct (run true (body (tag_re_prefixed tag)) (String c (pre ++ s))) as [g|] eqn:E;
    [exfalso | now apply IH].
  cbn [body tag_re_prefixed] in E.
  apply run_prefixed_open in E as (a & k & m & rest & Hs & Ha & Hk & Hm).
  cbn [append] in Hs. injection Hs as -> Hs. cbn in Hgt.
  apply includes_spec in Hgt as (u & v & ->).
  assert (Hx : all_chars no_gt (a ++ k ++ m) = true).
  { rewrite !all_chars_append, (name_chars_no_gt _ Ha), (colon_no_gt _ Hk).
    now rewrite (same_letters_no_gt _ _ Hm (name_chars_no_gt _ Htag)). }
  assert (Hs' : (a ++ k ++ m) ++ rest = u ++ ">" ++ (v ++ s))
    by (rewrite !append_assoc, <- Hs; now rewrite !append_assoc).
  destruct (prefix_before_gt _ _ _ _ Hs' Hx) as [u' ->].
  apply Hn'. rewrite <- Hm.
  replace ((((a ++ k ++ m) ++ u') ++ ">" ++ v))
    with ((a ++ k) ++ m ++ (u' ++ ">" ++ v)) by now rewrite !append_assoc.
  apply mentions_middle.
Qed.

(** The pattern finds the element that [firstElement] describes. *)
Lemma extractTag_firstElement xml tag txt :
  all_chars (none_of ":>") tag = true ->
  firstElement xml tag txt -> extractTag xml tag = Some (trim txt).
Proof.
  intros Htag (pre & qn & post & -> & Hqn & Hcl & Hn & Htxt).
  unfold extractTag.
  change (exec (tag_re_prefixed tag) (pre ++ "<" ++ qn ++ ">" ++ txt ++ "</" ++ qn ++ ">" ++ post))
    with (search true (body (tag_re_prefixed tag))
            (pre ++ "<" ++ qn ++ ">" ++ txt ++ "</" ++ qn ++ ">" ++ post)).
  rewrite (search_skip_closed tag pre _ Htag Hcl Hn).
  destruct Hqn as [->|(ns & -> & Hns)].
  - now rewrite (search_hit _ _ _ _ (run_plain_element tag txt post Htag Htxt)).
  - rewrite !append_assoc.
    now rewrite (search_hit _ _ _ _ (run_prefixed_element tag ns txt post Hns Htxt)).
Qed.

(** ** Parsing the response *)

(** The text of the first element named [tagName], before trimming. *)
Definition elementText (xml tagName : string) : option string :=
  match exec (tag_re_prefixed tagName) xml with
  | Some g => Some g
  | None => exec (tag_re_plain tagName) xml
  end.

Lemma extractTag_elementText xml tagName :
  extractTag xml tagName = option_map trim (elementText xml tagName).
Proof.
  unfold extractTag, elementText.
  destruct (exec (tag_re_prefixed tagName) xml); [reflexivity|].
  now destruct (exec (tag_re_plain tagName) xml).
Qed.

Lemma extractTag_hit xml tagName g :
  run true (body (tag_re_prefixed tagName)) xml = Some g ->
  extractTag xml tagName = Some (trim g).
Proof.
  intros H. unfold extractTag, exec. cbn [anchored icase tag_re_prefixed].
  change (body {| anchored := false; icase := true;
                  body := body (tag_re_prefixed tagName) |})
    with (body (tag_re_prefixed tagName)).
  now rewrite (search_hit _ _ _ _ H).
Qed.

Lemma extractTag_trimmed xml tagName v :
  extractTag xml tagName = Some v -> trim v = v.
Proof.
  rewrite extractTag_elementText.
  destruct (elementText xml tagName); [|discriminate].
  intros [= <-]. apply trim_idem.
Qed.

Lemma is_space_downcase c : is_space (downcase c) = is_space c.
Proof. ascii_cases c; reflexivity. Qed.

Lemma nonspace_toLowerCase m :
  all_chars nonspace (toLowerCase m) = all_chars nonspace m.
Proof.
  unfold toLowerCase. rewrite all_chars_map. apply all_chars_ext.
  intros c. unfold nonspace. now rewrite is_space_downcase.
Qed.

(** [/^\s*true\s*$/i] holds of the texts that read [true] once trimmed and
    lower-cased. *)
Lemma TRUE_REGEX_test v :
  test TRUE_REGEX v = true <-> toLowerCase (trim v) = "true".
Proof.
  unfold test, exec, TRUE_REGEX; cbn [anchored icase body].
  rewrite run_Rep, rep_spaces_then.
  2:{ intros c t Hc. rewrite run_Chars. cbn [eat].
      destruct (char_eq true "t" c) eqn:E; [|reflexivity].
      apply char_eq_icase in E. rewrite <- is_space_downcase, <- E in Hc.
      discriminate Hc. }
  rewrite run_Chars. unfold trim. set (u := trimStart v).
  destruct (eat true "true" u) as [r|] eqn:E.
  - rewrite run_Rep, rep_star_to_end.
    apply eat_icase in E as (m & Hu & Hm). change (toLowerCase "true") with "true" in Hm.
    assert (Hns : all_chars nonspace m = true)
      by (now rewrite <- nonspace_toLowerCase, Hm).
    destruct (all_chars is_space r) eqn:Hr.
    + split; [intros _ | reflexivity].
      now rewrite Hu, trimEnd_nonspace_spaces.
    + split; [discriminate|]. intros H. exfalso.
      destruct (trimEnd_split u) as (r' & Hsplit & Hr').
      assert (Hlen : String.length (trimEnd u) = String.length m).
      { unfold toLowerCase in *.
        rewrite <- (map_chars_length downcase (trimEnd u)), H.
        now rewrite <- (map_chars_length downcase m), Hm. }
      rewrite Hu in Hsplit at 1.
      assert (Hinj : forall a b c d, a ++ b = c ++ d ->
                String.length a = String.length c -> b = d).
      { induction a as [|x a IHa]; intros b [|y c] d Hab Hl; try discriminate Hl.
        - exact Hab.
        - injection Hab as _ Hab. injection Hl as Hl. eauto. }
      apply Hinj in Hsplit; [|now symmetry]. congruence.
  - split; [discriminate|]. intros H. exfalso.
    destruct (trimEnd_split u) as (r' & Hsplit & Hr').
    assert (eat true "true" u = Some r') as E'
      by (apply eat_icase; now exists (trimEnd u)).
    congruence.
Qed.





(** A response as the registry sends it, and one without prefixes. *)
Definition sample_response : string :=
  "<env:Envelope><env:Body><ns2:checkVatResponse>" ++
  "<ns2:countryCode>IE</ns2:countryCode><ns2:vatNumber>6388047V</ns2:vatNumber>" ++
  "<ns2:requestDate>2024-01-01+01:00</ns2:requestDate><ns2:valid> TRUE </ns2:valid>" ++
  "<ns2:name>ACME LTD</ns2:name><ns2:address>1 MAIN ST</ns2:address>" ++
  "</ns2:checkVatResponse></env:Body></env:Envelope>".

Definition sample_result : ViesResponse :=
  {| valid := true; countryCode := "IE"; vatNumber := "6388047V";
     name := "ACME LTD"; address := "1 MAIN ST";
     requestDate := "2024-01-01+01:00"; consultationNumber := None |}.

Example parseViesResponse_sample :
  parseViesResponse sample_response = inr sample_result.
Proof. reflexivity. Qed.

(** Deciding that a concrete text does not mention a name. *)
Lemma not_mentioned s pat : includes (toLowerCase s) pat = false -> ~ mentions s pat.
Proof. intros H Hm. apply includes_toLowerCase in Hm. congruence. Qed.

(** In [sample_response] the elements [valid] and [name] come as
    [firstElement] describes them. *)
Lemma sample_response_valid : firstElement sample_response "valid" " TRUE ".
Proof.
  exists ("<env:Envelope><env:Body><ns2:checkVatResponse>" ++
          "<ns2:countryCode>IE</ns2:countryCode><ns2:vatNumber>6388047V</ns2:vatNumber>" ++
          "<ns2:requestDate>2024-01-01+01:00</ns2:requestDate>"),
         "ns2:valid",
         ("<ns2:name>ACME LTD</ns2:name><ns2:address>1 MAIN ST</ns2:address>" ++
          "</ns2:checkVatResponse></env:Body></env:Envelope>").
  split; [reflexivity|].
  split; [right; exists "ns2"; split; reflexivity|].
  split; [reflexivity|].
  split; [now apply not_mentioned | reflexivity].
Qed.



Example parseViesResponse_plain :
  parseViesResponse
    "<valid>false</valid><countryCode>DE</countryCode><requestIdentifier>WAPI1</requestIdentifier>"
  = inr {| valid := false; countryCode := "DE"; vatNumber := ""; name := "";
           address := ""; requestDate := ""; consultationNumber := Some "WAPI1" |}.
Proof. reflexivity. Qed.

(** ** The response body *)

Lemma spaces_not_lt s : all_chars is_space s = true -> all_chars not_lt s = true.
Proof.
  apply all_chars_impl. intros c. ascii_cases c; vm_compute; congruence.
Qed.

Lemma extractTag_blank xml tagName : trim xml = "" -> extractTag xml tagName = None.
Proof.
  intros H. apply trim_blank, spaces_not_lt in H.
  unfold extractTag, exec. cbn [anchored icase body tag_re_prefixed tag_re_plain].
  now rewrite !(search_no_lt _ _ _ H).
Qed.

Lemma getSoapFaultString_whenTruthy xml :
  whenTruthy (getSoapFaultString xml) = whenTruthy (extractTag xml "faultstring").
Proof.
  unfold getSoapFaultString.
  destruct (extractTag xml "faultstring") as [f|] eqn:E; [|reflexivity].
  rewrite (extractTag_trimmed _ _ _ E). now destruct f.
Qed.

(** Code, status, details and message of a classified error: the message
    is the fixed one of the code. *)
Definition classifiedAs (e : ViesServiceError) (c : ViesErrorCode) (st : Z)
    (d : option string) : Prop :=
  code e = c /\ statusCode e = st /\ details e = d
  /\ message e = VIES_ERROR_MESSAGES c.


Lemma classifiedAs_friendly c st d : classifiedAs (toFriendlyError c st d) c st d.
Proof. repeat split. Qed.


(** The body holds no fault text: it does not mention [faultstring], or
    the first mention is an element whose text is blank. *)
Definition faultAbsent (xml : string) : Prop :=
  ~ mentions xml "faultstring"
  \/ exists txt, firstElement xml "faultstring" txt /\ trim txt = "".

Lemma faultAbsent_found xml :
  faultAbsent xml ->
  extractTag xml "faultstring" = None \/ extractTag xml "faultstring" = Some "".
Proof.
  intros [H|(txt & H & Ht)].
  - left. exact (extractTag_not_mentioned xml "faultstring" H).
  - right. now rewrite (extractTag_firstElement _ "faultstring" _ eq_refl H), Ht.
Qed.


Lemma handleBody_parsed xml :
  trim xml <> "" ->
  extractTag xml "faultstring" = None \/ extractTag xml "faultstring" = Some "" ->
  handleBody (JsString xml) =
  match parseViesResponse xml with
  | inr r => inr r
  | inl detail => inl (toFriendlyError PARSE_ERROR 502 (Some detail))
  end.
Proof.
  intros Hne Hf. unfold handleBody.
  destruct (trim xml) as [|c t]; [now destruct Hne|]. cbn [String.length Nat.eqb].
  rewrite getSoapFaultString_whenTruthy. now destruct Hf as [-> | ->].
Qed.



(** ** Transport failures, classified *)



Lemma errorBodyFault_found ax r body f :
  ax_response ax = Some r -> data r = JsString body ->
  extractTag body "faultstring" = Some f -> f <> "" ->
  errorBodyFault ax = Some f.
Proof.
  unfold errorBodyFault. intros -> Hd Hf Hne. destruct r as [st d].
  cbn in Hd. subst d. destruct body as [|c body].
  - vm_compute in Hf. discriminate Hf.
  - cbn [truthy]. rewrite getSoapFaultString_whenTruthy, Hf.
    destruct f; [now destruct Hne | reflexivity].
Qed.

(** A text with a fault is classified by the fault alone. *)
Lemma classifyThrown_fault ax r body txt :
  ax_response ax = Some r -> data r = JsString body ->
  firstElement body "faultstring" txt -> trim txt <> "" ->
  classifyThrown (ThrownAxios ax) =
  toFriendlyError (fst (normalizeFault (trim txt)))
    (snd (normalizeFault (trim txt))) (Some (trim txt)).
Proof.
  intros Hr Hd Hf Hne. cbn [classifyThrown].
  rewrite (errorBodyFault_found ax r body (trim txt) Hr Hd
             (extractTag_firstElement _ "faultstring" _ eq_refl Hf) Hne).
  now destruct (normalizeFault (trim txt)).
Qed.




(** ** The request envelope *)

(** The five characters [escapeXml] replaces. *)
Definition xml_meta (c : ascii) : bool :=
  ((c =? "&") || (c =? "<") || (c =? ">") || (c =? "034") || (c =? "'"))%char.

Definition plain (s : string) : bool := all_chars (fun c => negb (xml_meta c)) s.

Lemma replaceAll_char_append c rep a b :
  replaceAll_char c rep (a ++ b) = replaceAll_char c rep a ++ replaceAll_char c rep b.
Proof.
  induction a as [|x a IH]; [reflexivity|]. simpl.
  destruct (x =? c)%char; rewrite IH; [now rewrite append_assoc | reflexivity].
Qed.

Lemma escapeXml_append a b : escapeXml (a ++ b) = escapeXml a ++ escapeXml b.
Proof. unfold escapeXml. now rewrite !replaceAll_char_append. Qed.

Lemma escapeXml_char c :
  all_chars not_lt (escapeXml (String c "")) = true
  /\ (xml_meta c = false -> escapeXml (String c "") = String c "").
Proof. ascii_cases c; vm_compute; split; congruence. Qed.

Lemma escapeXml_no_lt s : all_chars not_lt (escapeXml s) = true.
Proof.
  induction s as [|c s IH]; [reflexivity|].
  change (String c s) with (String c "" ++ s).
  rewrite escapeXml_append, all_chars_append, IH.
  now rewrite (proj1 (escapeXml_char c)).
Qed.

Lemma escapeXml_plain s : plain s = true -> escapeXml s = s.
Proof.
  unfold plain. induction s as [|c s IH]; [reflexivity|].
  cbn [all_chars]. rewrite andb_true_iff, negb_true_iff. intros [Hc Hs].
  change (String c s) with (String c "" ++ s) at 1.
  now rewrite escapeXml_append, (proj2 (escapeXml_char c) Hc), (IH Hs).
Qed.

Lemma plain_not_lt s : plain s = true -> all_chars not_lt s = true.
Proof.
  apply all_chars_impl. intros c. ascii_cases c; vm_compute; congruence.
Qed.

(** The text of the envelope before the country code, and between the
    country code and the VAT-number element. *)
Definition envelope_head : string :=
  String.concat nl
    [ "<?xml version=" ++ dq ++ "1.0" ++ dq ++ " encoding=" ++ dq ++ "UTF-8" ++ dq ++ "?>";
      "<soap:Envelope xmlns:soap=" ++ dq ++ "http://schemas.xmlsoap.org/soap/envelope/" ++ dq
        ++ " xmlns:urn=" ++ dq ++ SOAP_NS ++ dq ++ ">";
      "  <soap:Body>";
      "    <urn:checkVat>";
      "      <urn:countryCode>" ].

Definition envelope_mid : string := "</urn:countryCode>" ++ nl ++ "      ".

Definition envelope_tail : string :=
  String.concat nl [ ""; "    </urn:checkVat>"; "  </soap:Body>"; "</soap:Envelope>" ].

Lemma buildSoapEnvelope_shape cc vn :
  buildSoapEnvelope cc vn =
  envelope_head ++ escapeXml cc ++ envelope_mid ++
  "<" ++ "urn" ++ ":" ++ "vatNumber" ++ ">" ++ escapeXml vn ++
  "</" ++ "urn" ++ ":" ++ "vatNumber" ++ ">" ++ envelope_tail.
Proof.
  unfold buildSoapEnvelope, envelope_head, envelope_mid, envelope_tail.
  cbn [String.concat]. rewrite !append_assoc. reflexivity.
Qed.

Lemma search_envelope_head t :
  search true (body (tag_re_prefixed "vatNumber")) (envelope_head ++ t) =
  search true (body (tag_re_prefixed "vatNumber")) t.
Proof. vm_compute. reflexivity. Qed.

Lemma search_envelope_mid t :
  search true (body (tag_re_prefixed "vatNumber")) (envelope_mid ++ t) =
  search true (body (tag_re_prefixed "vatNumber")) t.
Proof. vm_compute. reflexivity. Qed.

Lemma extractTag_envelope cc vn :
  plain vn = true ->
  extractTag (buildSoapEnvelope cc vn) "vatNumber" = Some (trim vn).
Proof.
  intros Hvn. unfold extractTag, exec. cbn [anchored icase tag_re_prefixed].
  change (body {| anchored := false; icase := true;
                  body := body (tag_re_prefixed "vatNumber") |})
    with (body (tag_re_prefixed "vatNumber")).
  rewrite buildSoapEnvelope_shape, search_envelope_head.
  change (body (tag_re_prefixed "vatNumber"))
    with (Chars "<" :: tl (body (tag_re_prefixed "vatNumber"))).
  rewrite (search_skip _ _ _ _ (escapeXml_no_lt cc)).
  change (Chars "<" :: tl (body (tag_re_prefixed "vatNumber")))
    with (body (tag_re_prefixed "vatNumber")).
  rewrite search_envelope_mid, (escapeXml_plain vn Hvn).
  now rewrite (search_hit _ _ _ _
                 (run_prefixed_element "vatNumber" "urn" vn envelope_tail
                    eq_refl (plain_not_lt vn Hvn))).
Qed.

Lemma accepted_nonspace v :
  validateVatNumber v = None -> all_chars nonspace v = true.
Proof.
  intros H. apply validateVatNumber_None in H as [_ H]. revert H.
  apply all_chars_impl. intros c. ascii_cases c; vm_compute; congruence.
Qed.

Lemma accepted_plain v : validateVatNumber v = None -> plain v = true.
Proof.
  intros H. apply validateVatNumber_None in H as [_ H]. revert H.
  apply all_chars_impl. intros c. ascii_cases c; vm_compute; congruence.
Qed.

(** C9, as the code has it: for a VAT-number string free of the five XML
    meta-characters, escaping changes nothing and the [vatNumber] element
    extracted from the built envelope is the string trimmed of surrounding
    white space; it is the string itself when trimming leaves it unchanged,
    as for every string [validateVatNumber] accepts. *)
Theorem envelope_roundtrip (countryCode vatNumber : string) :
  plain vatNumber = true ->
  escapeXml vatNumber = vatNumber
  /\ extractTag (buildSoapEnvelope countryCode vatNumber) "vatNumber"
     = Some (trim vatNumber)
  /\ (trim vatNumber = vatNumber ->
      extractTag (buildSoapEnvelope countryCode vatNumber) "vatNumber"
      = Some vatNumber)
  /\ (validateVatNumber vatNumber = None ->
      extractTag (buildSoapEnvelope countryCode vatNumber) "vatNumber"
      = Some vatNumber).
Proof.
  intros Hp. pose proof (extractTag_envelope countryCode vatNumber Hp) as H.
  split; [now apply escapeXml_plain|]. split; [exact H|]. split.
  - intros Ht. now rewrite H, Ht.
  - intros Hv. now rewrite H, (trim_nonspace _ (accepted_nonspace _ Hv)).
Qed.

(** The theorem at the VAT number [6388047V]. *)
Lemma envelope_roundtrip_witness :
  extractTag (buildSoapEnvelope "IE" "6388047V") "vatNumber" = Some "6388047V".
Proof.
  exact (proj1 (proj2 (proj2 (envelope_roundtrip "IE" "6388047V" eq_refl))) eq_refl).
Defined.

(** C9, as stated, fails for a string with white space at an end: it holds
    no meta-character, and comes back trimmed. *)
Lemma envelope_roundtrip_trims :
  plain " 12" = true
  /\ escapeXml " 12" = " 12"
  /\ extractTag (buildSoapEnvelope "IE" " 12") "vatNumber" = Some "12".
Proof. repeat split. Qed.

(** A validated VAT number needs no escaping and survives the round trip,
    whatever the country code. *)
Corollary validated_vat_roundtrip cc raw cc' vn :
  validatePathParams cc raw = ValidationResult cc' vn ->
  escapeXml vn = vn /\ extractTag (buildSoapEnvelope cc' vn) "vatNumber" = Some vn.
Proof.
  unfold validatePathParams.
  destruct (validateCountryCode _); [discriminate|].
  destruct (validateVatNumber _) eqn:Hv; [discriminate|].
  intros [= <- <-]. pose proof (accepted_plain _ Hv) as Hp.
  split; [now apply escapeXml_plain|].
  now rewrite (extractTag_envelope _ _ Hp), (trim_nonspace _ (accepted_nonspace _ Hv)).
Qed.

(** ** The IP-blocking signature comes from an upstream 403 only *)

Lemma handleBody_not_blocked body e :
  handleBody body = inl e -> code e = SERVICE_UNAVAILABLE -> statusCode e = 503%Z.
Proof.
  unfold handleBody. destruct body as [xml|]; [|intros [= <-]; discriminate].
  destruct (_ =? 0)%nat; [intros [= <-]; discriminate|].
  destruct (whenTruthy _) as [f|].
  - destruct (normalizeFault f) as [c st] eqn:E. intros [= <-]. cbn.
    intros ->. now apply normalizeFault_service_status in E.
  - destruct (parseViesResponse xml); [intros [= <-]; discriminate | discriminate].
Qed.

Lemma checkVat_blocked_is_403 post cc vn e :
  viesService.checkVat post cc vn = inl e ->
  code e = SERVICE_UNAVAILABLE -> statusCode e = 502%Z ->
  exists ax, post VIES_URL (buildSoapEnvelope cc vn) = inl (ThrownAxios ax)
             /\ upstreamStatus ax 403
             /\ details e = Some IP_BLOCKED_DETAIL.
Proof.
  unfold viesService.checkVat.
  destruct (post VIES_URL (buildSoapEnvelope cc vn)) as [[ax|msg|]|body].
  - intros [= <-]. cbn [classifyThrown].
    destruct (errorBodyFault ax) as [f|].
    + destruct (normalizeFault f) as [c st] eqn:E. cbn. intros -> ->.
      apply normalizeFault_service_status in E. discriminate E.
    + destruct (_ || _); [discriminate|].
      destruct (statusIs ax 503); [discriminate|].
      destruct (statusIs ax 403) eqn:H403.
      * intros _ _. exists ax. split; [reflexivity|].
        split; [now apply statusIs_test | reflexivity].
      * destruct (isNetworkErrorCode _); discriminate.
  - intros [= <-]. discriminate.
  - intros [= <-]. discriminate.
  - intros H Hc Hs. rewrite (handleBody_not_blocked _ _ H Hc) in Hs. discriminate Hs.
Qed.

(** With the live registry client, a fallback call means that the transport
    failed with an upstream 403. *)
Corollary validateVat_fallback_only_on_403 post vatlayer key cc vn e log :
  viesService.checkVat post cc vn = inl e ->
  vatlayerCalls (snd (validateVat key (liveClients post vatlayer) cc vn log))
  = S (vatlayerCalls log) ->
  exists ax, post VIES_URL (buildSoapEnvelope cc vn) = inl (ThrownAxios ax)
             /\ upstreamStatus ax 403.
Proof.
  intros He. rewrite validateVat_unfold. cbn [checkVat liveClients]. rewrite He.
  assert (Hno : vatlayerCalls (log ++ [CalledVies cc vn]) <> S (vatlayerCalls log)).
  { rewrite vatlayerCalls_app. unfold vatlayerCalls at 2. simpl. lia. }
  destruct (whenTruthy key) as [k|]; [|intros H; now destruct Hno].
  destruct (isIpBlocked (ViesErr e)) eqn:Hb; [|intros H; now destruct Hno].
  intros _. apply isIpBlocked_test in Hb as (e' & [= <-] & Hc & Hs).
  destruct (checkVat_blocked_is_403 _ _ _ _ He Hc Hs) as (ax & Hax & H403 & _).
  now exists ax.
Qed.

(* ================================================================== *)
(** * The surrounding code: error responses, fallback client, routes, key gate *)

(* ------------------------------------------------------------------ *)
(** ** src/errors.ts *)

Module errors.
Import Js viesService.

Inductive ApiErrorCode : Type :=
| INVALID_INPUT | NOT_FOUND | UNAUTHORIZED | FORBIDDEN | SERVICE_UNAVAILABLE
| MS_UNAVAILABLE | TIMEOUT | SERVER_BUSY | SERVER_DOWN | NETWORK_ERROR
| PARSE_ERROR | BAD_GATEWAY | UNKNOWN_ERROR | TOO_MANY_REQUESTS | INTERNAL_ERROR.

(** [ApiErrorBody]; [details] is [None] when the key is left out. *)
Record ApiErrorBody : Type := {
  error : ApiErrorCode;
  message : string;
  status_code : Z;
  details : option string
}.

(** [VatValidationApiResponse] of [src/types.ts]. *)
Record VatValidationApiResponse : Type := {
  valid : bool;
  country_code : string;
  vat_number : string;
  company_name : option string;
  address : option string;
  consultation_number : option string;
  request_date : option string;
  checked_at : string
}.

(** What a handler has sent: the status and the JSON body. *)
Inductive JsonBody : Type :=
| ErrorJson (b : ApiErrorBody)
| ResultJson (r : VatValidationApiResponse).

Record HttpResponse : Type := { http_status : Z; http_body : JsonBody }.

(** [res.status(statusCode).json({...})]; the spread [...(details &&
    { details })] adds the key only for a truthy [details]. *)
Definition sendError (statusCode : Z) (code : ApiErrorCode) (msg : string)
    (det : option string) : HttpResponse :=
  {| http_status := statusCode;
     http_body := ErrorJson {| error := code; message := msg;
                               status_code := statusCode;
                               details := whenTruthy det |} |}.

End errors.

(* ------------------------------------------------------------------ *)
(** ** src/config.ts: the API key *)

Module config.
Import Js viesService.

(** [process.env.API_KEY?.trim() || null], the environment variable being
    the parameter. *)
Definition apiKey (env_API_KEY : option string) : option string :=
  whenTruthy (option_map trim env_API_KEY).

End config.

(* ------------------------------------------------------------------ *)
(** ** src/services/vatlayerService.ts *)

Module vatlayerService.
Import Js viesService app.

Definition VATLAYER_URL : string := "https://apilayer.net/api/validate".

(** The fields of [VatlayerResponse] the client reads.  [valid] is [None]
    when the field is missing or is not a boolean. *)
Record VatlayerResponse : Type := {
  valid : option bool;
  country_code : option string;
  vat_number : option string;
  company_name : option string;
  company_address : option string
}.

(** What [axios.get] can throw: an Axios error, with
    [response?.data?.error?.info] and its message; another [Error]; or a
    value that is no [Error]. *)
Inductive GetThrown : Type :=
| GetAxios (info : option string) (msg : string)
| GetError (msg : string)
| GetOther.

(** [a ?? b] with a string default. *)
Definition orElse (a : option string) (b : string) : string :=
  match a with Some v => v | None => b end.

(** [`${countryCode}${vatNumber}`.replace(/\s/g, "")], the [vat_number]
    query parameter of the request. *)
Definition fullVat (countryCode vatNumber : string) : string :=
  removeAll_runs is_space (countryCode ++ vatNumber).

(** [checkVatViaVatlayer].  [get url access_key vat_number] is what
    [axios.get] returns (the response data, [None] when falsy) or throws;
    [now] is [new Date().toISOString()] at the time of the answer. *)
Definition checkVatViaVatlayer
    (get : string -> string -> string -> GetThrown + option VatlayerResponse)
    (now : string) (apiKey countryCode vatNumber : string)
    : Exn + ViesResponse :=
  match get VATLAYER_URL apiKey (fullVat countryCode vatNumber) with
  | inl (GetAxios info msg) =>
      inl (OtherError ("Vatlayer request failed: " ++ orElse info msg))
  | inl (GetError msg) => inl (OtherError msg)
  | inl GetOther => inl (OtherError "Vatlayer request failed")
  | inr None => inl (OtherError "Vatlayer returned an invalid response")
  | inr (Some data) =>
      match valid data with
      | None => inl (OtherError "Vatlayer returned an invalid response")
      | Some v =>
          let requestDate := slice_to 10 now in
          inr {| viesService.valid := v;
                 countryCode := orElse (country_code data) countryCode;
                 vatNumber := orElse (vat_number data) vatNumber;
                 name := orElse (company_name data) "";
                 address := orElse (company_address data) "";
                 requestDate := requestDate;
                 consultationNumber := None |}
      end
  end.

End vatlayerService.

(* ------------------------------------------------------------------ *)
(** ** src/app.ts: the two validation routes *)

Module routes.
Import Js vatValidation viesService app errors.

(** [x || null] on a string. *)
Definition orNull (s : string) : option string :=
  if truthy s then Some s else None.

(** [toApiResponse]; [now] is [new Date().toISOString()]. *)
Definition toApiResponse (now : string) (vies : ViesResponse)
    : VatValidationApiResponse :=
  {| errors.valid := viesService.valid vies;
     country_code := countryCode vies;
     vat_number := vatNumber vies;
     company_name := orNull (name vies);
     errors.address := orNull (viesService.address vies);
     consultation_number := consultationNumber vies;
     request_date := orNull (requestDate vies);
     checked_at := now |}.

(** [err.code as ApiErrorCode]: the same name on the other side. *)
Definition asApiErrorCode (c : ViesErrorCode) : ApiErrorCode :=
  match c with
  | viesService.SERVICE_UNAVAILABLE => errors.SERVICE_UNAVAILABLE
  | viesService.MS_UNAVAILABLE => errors.MS_UNAVAILABLE
  | viesService.INVALID_INPUT => errors.INVALID_INPUT
  | viesService.TIMEOUT => errors.TIMEOUT
  | viesService.SERVER_BUSY => errors.SERVER_BUSY
  | viesService.SERVER_DOWN => errors.SERVER_DOWN
  | viesService.NETWORK_ERROR => errors.NETWORK_ERROR
  | viesService.PARSE_ERROR => errors.PARSE_ERROR
  | viesService.UNKNOWN_ERROR => errors.UNKNOWN_ERROR
  end.

(** [res.json(body)]: status 200. *)
Definition sendJson (r : VatValidationApiResponse) : HttpResponse :=
  {| http_status := 200; http_body := ResultJson r |}.

(** The [try { ... } catch (err) { ... }] both routes share, after the
    input has been validated. *)
Definition respond (vatlayerApiKey : option string) (cl : Clients)
    (now : string) (cc vn : string) (log : list Call)
    : HttpResponse * list Call :=
  match validateVat vatlayerApiKey cl cc vn log with
  | (inr result, log') => (sendJson (toApiResponse now result), log')
  | (inl (ViesErr err), log') =>
      (sendError (statusCode err) (asApiErrorCode (code err))
                 (viesService.message err) (viesService.details err), log')
  | (inl (OtherError msg), log') =>
      (sendError 500 INTERNAL_ERROR
                 "An unexpected error occurred. Please try again." (Some msg), log')
  end.

(** [GET /validate/:countryCode/:vatNumber] *)
Definition getValidate (vatlayerApiKey : option string) (cl : Clients)
    (now : string) (countryCodeParam vatNumberParam : string)
    (log : list Call) : HttpResponse * list Call :=
  match validatePathParams countryCodeParam vatNumberParam with
  | Rejected e =>
      (sendError 400 INVALID_INPUT (vatValidation.message e) None, log)
  | ValidationResult cc vn => respond vatlayerApiKey cl now cc vn log
  end.

(** [GET /v1/validate?vat_number=...]; the query parameter is absent, a
    string, or another value, which the cast [as string] lets through. *)
Definition getV1Validate (vatlayerApiKey : option string) (cl : Clients)
    (now : string) (vat_number : option QueryValue)
    (log : list Call) : HttpResponse * list Call :=
  let raw := match vat_number with Some v => v | None => QueryString EmptyString end in
  match validateFullVatInput_untyped raw with
  | Rejected e =>
      (sendError 400 INVALID_INPUT (vatValidation.message e) None, log)
  | ValidationResult cc vn => respond vatlayerApiKey cl now cc vn log
  end.

(** The clients of the running service, over the two transports. *)
Definition serviceClients
    (post : string -> string -> Thrown + JsValue)
    (get : string -> string -> string
           -> vatlayerService.GetThrown + option vatlayerService.VatlayerResponse)
    (now : string) : Clients :=
  liveClients post (vatlayerService.checkVatViaVatlayer get now).

End routes.

(* ------------------------------------------------------------------ *)
(** ** src/middleware/apiKey.ts *)

Module apiKey.
Import Js viesService errors.

(** The parts of the request the middleware reads: [req.path],
    [req.get("X-API-Key")] and [req.get("Authorization")]. *)
Record Request : Type := {
  path : string;
  xApiKey : option string;
  authorization : option string
}.

Inductive Outcome : Type :=
| Next
| Sent (r : HttpResponse).

(** [provided === config.apiKey], for a configured (string) key. *)
Definition sameKey (provided : option string) (key : string) : bool :=
  match provided with Some p => String.eqb p key | None => false end.

Definition optionalApiKeyMiddleware (configApiKey : option string)
    (req : Request) : Outcome :=
  match whenTruthy configApiKey with
  | None => Next
  | Some key =>
      if String.eqb (path req) "/health" || String.eqb (path req) "/" then Next
      else
        let headerKey := xApiKey req in
        let bearer := authorization req in
        let token :=
          match bearer with
          | Some b => if startsWith "Bearer " b
                      then Some (trim (slice_from 7 b)) else None
          | None => None
          end in
        let provided :=
          match whenTruthy (option_map trim headerKey) with
          | Some h => Some h
          | None => token
          end in
        if sameKey provided key then Next
        else if negb (match provided with Some p => truthy p | None => false end)
        then Sent (sendError 401 UNAUTHORIZED
                     "API key required. Provide X-API-Key header or Authorization: Bearer <key>."
                     None)
        else Sent (sendError 403 FORBIDDEN "Invalid API key." None)
  end.

End apiKey.

(* ================================================================== *)
(** * Further properties *)

(** ** Validated requests *)

Lemma upcase_idem c : upcase (upcase c) = upcase c.
Proof. ascii_cases c; reflexivity. Qed.

Lemma toUpperCase_idem s : toUpperCase (toUpperCase s) = toUpperCase s.
Proof.
  unfold toUpperCase. induction s as [|c s IH]; [reflexivity|].
  simpl. now rewrite upcase_idem, IH.
Qed.

(** A successful outcome of [validatePathParams], read backwards. *)
Lemma validatePathParams_success cc raw c v :
  validatePathParams cc raw = ValidationResult c v ->
  c = toUpperCase cc /\ v = normalizeVatNumber raw /\
  validateCountryCode c = None /\ validateVatNumber v = None.
Proof.
  unfold validatePathParams.
  destruct (validateCountryCode _) eqn:Hc; [discriminate|].
  destruct (validateVatNumber _) eqn:Hv; [discriminate|].
  intros [= <- <-]. auto.
Qed.

(** A successful outcome of [validateFullVatInput], read backwards. *)
Lemma validateFullVatInput_success raw c v :
  validateFullVatInput raw = ValidationResult c v ->
  c = toUpperCase (slice_to 2 (trim raw)) /\
  v = normalizeVatNumber (slice_from 2 (trim raw)) /\
  validateCountryCode c = None /\ validateVatNumber v = None /\
  4 <= String.length (trim raw) <= 20.
Proof.
  unfold validateFullVatInput, MAX_VAT_INPUT_LENGTH.
  destruct (negb _); [discriminate|].
  destruct (Nat.ltb_spec 20 (String.length (trim raw))); [discriminate|].
  destruct (Nat.ltb_spec (String.length (trim raw)) 4); [discriminate|].
  destruct (validateCountryCode _) eqn:Hc; [discriminate|].
  destruct (validateVatNumber _) eqn:Hv; [discriminate|].
  intros [= <- <-]. repeat split; auto.
Qed.

Lemma validateFullVatInput_untyped_success raw c v :
  validateFullVatInput_untyped raw = ValidationResult c v ->
  exists s, raw = QueryString s /\ validateFullVatInput s = ValidationResult c v.
Proof. destruct raw as [s|]; [now exists s | discriminate]. Qed.

(** What both validators guarantee of the request they let through. *)
Definition wellFormedRequest (c v : string) : Prop :=
  In c EU_COUNTRY_CODES /\ two_upper c /\
  2 <= String.length v <= 12 /\
  all_chars (fun x => is_upper x || is_digit x) v = true.

Lemma accepted_wellFormed c v :
  validateCountryCode c = None -> validateVatNumber v = None ->
  toUpperCase c = c -> wellFormedRequest c v.
Proof.
  intros Hc Hv Hu. apply validateCountryCode_None in Hc as [H2 Hin].
  apply validateVatNumber_None in Hv as [Hl Ha]. rewrite Hu in *.
  unfold wellFormedRequest. tauto.
Qed.

(** X1: whatever the input, a request that either validator lets through
    has a country code of the allow-list, made of two capital letters, and a
    VAT number of 2 to 12 characters in A-Z, 0-9. *)
Theorem validators_give_wellFormed_requests :
  (forall countryCode vatNumberRaw c v,
      validatePathParams countryCode vatNumberRaw = ValidationResult c v ->
      wellFormedRequest c v)
  /\ (forall raw c v,
      validateFullVatInput raw = ValidationResult c v ->
      wellFormedRequest c v).
Proof.
  split.
  - intros cc raw c v H.
    apply validatePathParams_success in H as (-> & -> & Hc & Hv).
    apply accepted_wellFormed; auto using toUpperCase_idem.
  - intros raw c v H.
    apply validateFullVatInput_success in H as (-> & -> & Hc & Hv & _).
    apply accepted_wellFormed; auto using toUpperCase_idem.
Qed.

Lemma removeAll_runs_append cls a b :
  removeAll_runs cls (a ++ b) = removeAll_runs cls a ++ removeAll_runs cls b.
Proof.
  induction a as [|x a IH]; [reflexivity|]. simpl.
  destruct (cls x); [exact IH | simpl; now rewrite IH].
Qed.

Lemma removeAll_runs_all cls r : all_chars cls r = true -> removeAll_runs cls r = "".
Proof.
  induction r as [|x r IH]; [reflexivity|]. simpl.
  rewrite andb_true_iff. intros [-> Hr]. auto.
Qed.

Lemma normalizeVatNumber_trailing_spaces t r :
  all_chars is_space r = true ->
  normalizeVatNumber (t ++ r) = normalizeVatNumber t.
Proof.
  intros Hr. unfold normalizeVatNumber.
  now rewrite removeAll_runs_append, (removeAll_runs_all _ _ Hr), append_empty_r.
Qed.

(** Trimming a text that starts with two characters that are no white
    space keeps them and cuts only trailing white space. *)
Lemma trim_after_two c1 c2 s :
  is_space c1 = false -> is_space c2 = false ->
  exists t r, trim (String c1 (String c2 s)) = String c1 (String c2 t)
              /\ s = t ++ r /\ all_chars is_space r = true.
Proof.
  intros H1 H2. unfold trim. cbn [trimStart]. rewrite H1.
  destruct (trimEnd_split (String c1 (String c2 s))) as (r & Hs & Hr).
  destruct (trimEnd_head c2 s H2) as [t Ht].
  rewrite (trimEnd_cons c1), Ht in *.
  exists t, r. split; [reflexivity|]. split; [|assumption].
  simpl in Hs. now injection Hs.
Qed.

Lemma capital_nonspace c : is_upper (upcase c) = true -> is_space c = false.
Proof. ascii_cases c; vm_compute; congruence. Qed.

(** The two entry points on the same request. *)
Lemma validateFullVatInput_of_path cc vn c v :
  validatePathParams cc vn = ValidationResult c v ->
  String.length cc = 2 ->
  4 <= String.length (trim (cc ++ vn)) <= 20 ->
  validateFullVatInput (cc ++ vn) = ValidationResult c v.
Proof.
  intros H Hl Hlen. apply validatePathParams_success in H as (-> & -> & Hc & Hv).
  pose proof Hc as Hc'. apply validateCountryCode_None in Hc' as [[_ H2] _].
  rewrite toUpperCase_idem in H2.
  destruct cc as [|c1 [|c2 [|c3 cc]]]; try discriminate Hl.
  cbn [toUpperCase map_chars all_chars] in H2. rewrite andb_true_r in H2.
  apply andb_true_iff in H2 as [L1 L2].
  apply capital_nonspace in L1, L2.
  cbn [append] in *.
  destruct (trim_after_two c1 c2 vn L1 L2) as (t & r & Ht & Hvn & Hr).
  assert (Hn : normalizeVatNumber vn = normalizeVatNumber t)
    by (rewrite Hvn; now apply normalizeVatNumber_trailing_spaces).
  rewrite (validateFullVatInput_cases _ Hlen), Ht.
  cbn [slice_to slice_from]. now rewrite <- Hn, Hc, Hv.
Qed.

(** X2: a request that the path route accepts is accepted by the query
    route, as the same request, when the country code is written with two
    characters, the number follows it directly, and the text is, once
    trimmed, within the 4 to 20 characters of the query route. *)
Theorem path_and_query_routes_agree (cc vn c v : string) :
  validatePathParams cc vn = ValidationResult c v ->
  String.length cc = 2 ->
  4 <= String.length (trim (cc ++ vn)) <= 20 ->
  validateFullVatInput (cc ++ vn) = ValidationResult c v.
Proof. apply validateFullVatInput_of_path. Qed.

Lemma path_and_query_routes_agree_witness :
  validateFullVatInput ("ie" ++ "63-88 047v ") = ValidationResult "IE" "6388047V".
Proof.
  apply (path_and_query_routes_agree "ie" "63-88 047v " "IE" "6388047V").
  - reflexivity.
  - reflexivity.
  - vm_compute. lia.
Defined.

(** The query route is the stricter one: thirteen characters with twelve
    separators pass the path route and are too long for the query route. *)
Example query_route_length_guard :
  validatePathParams "IE" "1 2 3 4 5 6 7 8 9 0 1 2" = ValidationResult "IE" "123456789012"
  /\ exists e, validateFullVatInput ("IE" ++ "1 2 3 4 5 6 7 8 9 0 1 2") = Rejected e.
Proof. split; [reflexivity | eexists; reflexivity]. Qed.

Lemma wellFormed_fixed c v :
  validateCountryCode c = None -> validateVatNumber v = None -> toUpperCase c = c ->
  validatePathParams c v = ValidationResult c v.
Proof.
  intros Hc Hv Hu. unfold validatePathParams.
  assert (Hn : normalizeVatNumber v = v).
  { apply normalizeVatNumber_fixed. apply validateVatNumber_None in Hv as [_ Ha].
    revert Ha. apply all_chars_impl. intros x. ascii_cases x; vm_compute; congruence. }
  now rewrite Hu, Hn, Hc, Hv.
Qed.

Lemma wellFormed_fixed_query c v :
  validateCountryCode c = None -> validateVatNumber v = None -> toUpperCase c = c ->
  validateFullVatInput (c ++ v) = ValidationResult c v.
Proof.
  intros Hc Hv Hu.
  pose proof Hc as Hc'. apply validateCountryCode_None in Hc' as [[Hl Hup] _].
  rewrite Hu in Hl, Hup.
  assert (Ht : trim (c ++ v) = c ++ v).
  { apply trim_nonspace. rewrite all_chars_append, (accepted_nonspace v Hv), andb_true_r.
    revert Hup. apply all_chars_impl. intros x. ascii_cases x; vm_compute; congruence. }
  apply validateFullVatInput_of_path; [now apply wellFormed_fixed | exact Hl |].
  rewrite Ht, length_append, Hl.
  apply validateVatNumber_None in Hv as [Hv _]. lia.
Qed.

(** X3: a validated request is canonical: given back to either validator
    (the code and the number apart, or written as one identifier) it is
    accepted unchanged. *)
Theorem validated_request_revalidates :
  (forall countryCode vatNumberRaw c v,
      validatePathParams countryCode vatNumberRaw = ValidationResult c v ->
      validatePathParams c v = ValidationResult c v /\
      validateFullVatInput (c ++ v) = ValidationResult c v)
  /\ (forall raw c v,
      validateFullVatInput raw = ValidationResult c v ->
      validatePathParams c v = ValidationResult c v /\
      validateFullVatInput (c ++ v) = ValidationResult c v).
Proof.
  split.
  - intros cc raw c v H.
    apply validatePathParams_success in H as (-> & -> & Hc & Hv).
    split; [apply wellFormed_fixed | apply wellFormed_fixed_query];
      auto using toUpperCase_idem.
  - intros raw c v H.
    apply validateFullVatInput_success in H as (-> & -> & Hc & Hv & _).
    split; [apply wellFormed_fixed | apply wellFormed_fixed_query];
      auto using toUpperCase_idem.
Qed.

(** ** Errors of the registry client *)

(** The status each error code goes with. *)
Definition statusFor (c : ViesErrorCode) (st : Z) : Prop :=
  match c with
  | INVALID_INPUT => st = 400%Z
  | TIMEOUT => st = 504%Z
  | MS_UNAVAILABLE | SERVER_BUSY => st = 503%Z
  | NETWORK_ERROR | PARSE_ERROR => st = 502%Z
  | SERVICE_UNAVAILABLE => st = 502%Z \/ st = 503%Z
  | UNKNOWN_ERROR => (400 <= st)%Z
  | SERVER_DOWN => False
  end.

Lemma statusFor_error c st : statusFor c st -> (400 <= st)%Z.
Proof. destruct c; simpl; lia. Qed.

Lemma normalizeFault_statusFor f :
  statusFor (fst (normalizeFault f)) (snd (normalizeFault f)).
Proof.
  destruct (normalizeFault_tests f) as (b1 & b2 & b3 & b4 & b5 & _ & _ & _ & _ & _ & ->).
  destruct b1, b2, b3, b4, b5; simpl; auto; lia.
Qed.

Lemma classifyThrown_statusFor err :
  statusFor (code (classifyThrown err)) (statusCode (classifyThrown err)).
Proof.
  destruct err as [ax|msg|]; cbn [classifyThrown]; [|simpl; lia..].
  destruct (errorBodyFault ax) as [f|].
  - pose proof (normalizeFault_statusFor f) as H.
    now destruct (normalizeFault f).
  - destruct (_ || _); [reflexivity|].
    destruct (statusIs ax 503); [now right|].
    destruct (statusIs ax 403); [now left|].
    destruct (isNetworkErrorCode _); [reflexivity|].
    cbn. destruct (ax_response ax) as [r|]; [|lia].
    destruct (Z.leb_spec 400 (status r)); [|rewrite andb_false_r; lia].
    destruct (negb _); cbn; lia.
Qed.

Lemma handleBody_statusFor body e :
  handleBody body = inl e -> statusFor (code e) (statusCode e).
Proof.
  unfold handleBody. destruct body as [xml|]; [|intros [= <-]; reflexivity].
  destruct (_ =? 0)%nat; [intros [= <-]; reflexivity|].
  destruct (whenTruthy _) as [f|].
  - pose proof (normalizeFault_statusFor f) as H.
    destruct (normalizeFault f). now intros [= <-].
  - destruct (parseViesResponse xml); [intros [= <-]; reflexivity | discriminate].
Qed.

Lemma classifyThrown_message err :
  message (classifyThrown err) = VIES_ERROR_MESSAGES (code (classifyThrown err)).
Proof.
  destruct err as [ax|msg|]; cbn [classifyThrown]; try reflexivity.
  destruct (errorBodyFault ax) as [f|]; [now destruct (normalizeFault f)|].
  destruct (_ || _); [reflexivity|].
  destruct (statusIs ax 503); [reflexivity|].
  destruct (statusIs ax 403); [reflexivity|].
  now destruct (isNetworkErrorCode _).
Qed.

Lemma handleBody_message body e :
  handleBody body = inl e -> message e = VIES_ERROR_MESSAGES (code e).
Proof.
  unfold handleBody. destruct body as [xml|]; [|intros [= <-]; reflexivity].
  destruct (_ =? 0)%nat; [intros [= <-]; reflexivity|].
  destruct (whenTruthy _) as [f|].
  - destruct (normalizeFault f). now intros [= <-].
  - destruct (parseViesResponse xml); [intros [= <-]; reflexivity | discriminate].
Qed.

Lemma checkVat_error_inv post cc vn e :
  viesService.checkVat post cc vn = inl e ->
  message e = VIES_ERROR_MESSAGES (code e) /\ statusFor (code e) (statusCode e).
Proof.
  unfold viesService.checkVat.
  destruct (post VIES_URL (buildSoapEnvelope cc vn)) as [err|body].
  - intros [= <-]. split; [apply classifyThrown_message | apply classifyThrown_statusFor].
  - intros H. split; [exact (handleBody_message _ _ H) | exact (handleBody_statusFor _ _ H)].
Qed.

(** X4: every error [checkVat] throws, whatever the transport did, carries
    the fixed message of its code and a status of at least 400 that goes with
    the code: 400 for INVALID_INPUT, 504 for TIMEOUT, 503 for MS_UNAVAILABLE
    and SERVER_BUSY, 502 for NETWORK_ERROR and PARSE_ERROR, 502 or 503 for
    SERVICE_UNAVAILABLE.  SERVER_DOWN is never thrown. *)
Theorem checkVat_error_table
    (post : string -> string -> Thrown + JsValue) (cc vn : string)
    (e : ViesServiceError) :
  viesService.checkVat post cc vn = inl e ->
  message e = VIES_ERROR_MESSAGES (code e)
  /\ statusFor (code e) (statusCode e)
  /\ (400 <= statusCode e)%Z
  /\ code e <> SERVER_DOWN.
Proof.
  intros H. destruct (checkVat_error_inv _ _ _ _ H) as [Hm Hs].
  split; [exact Hm|]. split; [exact Hs|].
  split; [exact (statusFor_error _ _ Hs)|].
  intros Hd. rewrite Hd in Hs. exact Hs.
Qed.

(** A registry that answers "server down" in a fault. *)
Definition post_server_down (_ _ : string) : Thrown + JsValue :=
  inr (JsString "<soap:Fault><faultstring>Server Down</faultstring></soap:Fault>").

Lemma checkVat_error_table_witness :
  message (toFriendlyError SERVICE_UNAVAILABLE 503 (Some "Server Down"))
    = "The EU VIES service is temporarily unavailable. Please try again later."
  /\ (503 = 502 \/ 503 = 503)%Z
  /\ (400 <= 503)%Z
  /\ SERVICE_UNAVAILABLE <> SERVER_DOWN.
Proof.
  exact (checkVat_error_table post_server_down "IE" "6388047V" _ eq_refl).
Defined.

(** ** Faults in error responses *)

(** X5: when the registry answers an error status with a text in which the
    first mention of [faultstring] is a well-formed element whose text is
    not blank, the error is classified by that text alone: the status, the
    error code and the message of the transport failure play no part, and
    the result never carries the IP-blocking signature, so that for instance
    a 403 with such a fault takes no fallback. *)
Theorem error_response_classified_by_fault
    (ax : AxiosError) (r : AxiosResponse) (body txt : string) :
  ax_response ax = Some r -> data r = JsString body ->
  firstElement body "faultstring" txt -> trim txt <> "" ->
  classifiedAs (classifyThrown (ThrownAxios ax))
    (fst (normalizeFault (trim txt))) (snd (normalizeFault (trim txt)))
    (Some (trim txt))
  /\ isIpBlocked (ViesErr (classifyThrown (ThrownAxios ax))) = false.
Proof.
  intros Hr Hd Hf Hne.
  pose proof (classifyThrown_fault ax r body txt Hr Hd Hf Hne) as Hc.
  rewrite Hc. split; [apply classifiedAs_friendly|]. cbn.
  destruct (normalizeFault (trim txt)) as [c st] eqn:En. cbn.
  destruct (code_eqb c SERVICE_UNAVAILABLE) eqn:Ec; [|reflexivity].
  apply code_eqb_eq in Ec. subst c.
  now rewrite (normalizeFault_service_status _ _ En).
Qed.

(** A 403 whose body is a fault, as the registry writes one. *)
Definition fault_body : string :=
  "<soap:Envelope><soap:Body><soap:Fault><faultcode>soap:Server</faultcode>" ++
  "<faultstring>MS_UNAVAILABLE: member state down</faultstring>" ++
  "</soap:Fault></soap:Body></soap:Envelope>".

Definition forbidden_with_fault : AxiosError :=
  {| ax_code := Some "ERR_BAD_REQUEST";
     ax_message := Some "Request failed with status code 403";
     ax_response := Some {| status := 403; data := JsString fault_body |} |}.

Lemma fault_body_element :
  firstElement fault_body "faultstring" "MS_UNAVAILABLE: member state down".
Proof.
  exists "<soap:Envelope><soap:Body><soap:Fault><faultcode>soap:Server</faultcode>",
         "faultstring", "</soap:Fault></soap:Body></soap:Envelope>".
  split; [reflexivity|].
  split; [now left|].
  split; [reflexivity|].
  split; [now apply not_mentioned | reflexivity].
Qed.

Lemma error_response_classified_by_fault_witness :
  classifiedAs (classifyThrown (ThrownAxios forbidden_with_fault))
    MS_UNAVAILABLE 503 (Some "MS_UNAVAILABLE: member state down")
  /\ isIpBlocked (ViesErr (classifyThrown (ThrownAxios forbidden_with_fault))) = false.
Proof.
  refine (error_response_classified_by_fault forbidden_with_fault _ fault_body
            "MS_UNAVAILABLE: member state down" eq_refl eq_refl fault_body_element _).
  discriminate.
Defined.

(** ** Results of the registry client *)

Lemma parseViesResponse_valid xml r :
  parseViesResponse xml = inr r ->
  mentions xml "valid"
  /\ forall txt, firstElement xml "valid" txt ->
                 (valid r = true <-> toLowerCase (trim txt) = "true").
Proof.
  unfold parseViesResponse.
  destruct (extractTag xml "valid") as [v|] eqn:Ev; [|discriminate].
  intros [= <-]. cbn [valid].
  split; [exact (extractTag_mentions _ _ _ Ev)|].
  intros txt H. rewrite (extractTag_firstElement _ "valid" _ eq_refl H) in Ev.
  injection Ev as <-. now rewrite TRUE_REGEX_test, trim_idem.
Qed.

(** X6: [checkVat] returns a result only from a response body that is
    text, is not blank, mentions [valid], and in which the first mention of
    [faultstring] is not a well-formed element with text; the result is then
    the parse of that body, its [valid] read from the [valid] element.
    Conversely a body without fault text in which the first mention of
    [valid] is a well-formed element gives a result. *)
Theorem handleBody_result_only_from :
  (forall body r, handleBody body = inr r ->
     exists xml, body = JsString xml
       /\ trim xml <> ""
       /\ mentions xml "valid"
       /\ (forall txt, firstElement xml "faultstring" txt -> trim txt = "")
       /\ (forall txt, firstElement xml "valid" txt ->
             (valid r = true <-> toLowerCase (trim txt) = "true"))
       /\ parseViesResponse xml = inr r)
  /\ (forall xml txt, faultAbsent xml -> firstElement xml "valid" txt ->
        exists r, handleBody (JsString xml) = inr r /\ parseViesResponse xml = inr r).
Proof.
  split.
  - intros body r. unfold handleBody. destruct body as [xml|]; [|discriminate].
    destruct (trim xml) as [|c t] eqn:Ht; [discriminate|]. cbn [String.length Nat.eqb].
    rewrite getSoapFaultString_whenTruthy.
    assert (Hres : parseViesResponse xml = inr r ->
              (forall txt, firstElement xml "faultstring" txt -> trim txt = "") ->
              exists xml0, JsString xml = JsString xml0
                /\ trim xml0 <> ""
                /\ mentions xml0 "valid"
                /\ (forall txt, firstElement xml0 "faultstring" txt -> trim txt = "")
                /\ (forall txt, firstElement xml0 "valid" txt ->
                      (valid r = true <-> toLowerCase (trim txt) = "true"))
                /\ parseViesResponse xml0 = inr r).
    { intros Hp Hf. destruct (parseViesResponse_valid xml r Hp) as [Hm Hv].
      exists xml. rewrite Ht.
      split; [reflexivity|]. split; [discriminate|]. split; [exact Hm|].
      split; [exact Hf|]. split; [exact Hv | exact Hp]. }
    destruct (extractTag xml "faultstring") as [[|x f]|] eqn:Ef; cbn [whenTruthy truthy].
    + destruct (parseViesResponse xml) as [d|r'] eqn:Ep; [discriminate|]. intros [= <-].
      apply Hres; [reflexivity|]. intros txt H.
      rewrite (extractTag_firstElement _ "faultstring" _ eq_refl H) in Ef.
      now injection Ef.
    + destruct (normalizeFault (String x f)). discriminate.
    + destruct (parseViesResponse xml) as [d|r'] eqn:Ep; [discriminate|]. intros [= <-].
      apply Hres; [reflexivity|]. intros txt H.
      rewrite (extractTag_firstElement _ "faultstring" _ eq_refl H) in Ef.
      discriminate Ef.
  - intros xml txt Hf Hv.
    pose proof (extractTag_firstElement _ "valid" _ eq_refl Hv) as Ev.
    assert (Hne : trim xml <> "").
    { intros Ht. rewrite (extractTag_blank xml "valid" Ht) in Ev. discriminate Ev. }
    rewrite (handleBody_parsed xml Hne (faultAbsent_found xml Hf)).
    unfold parseViesResponse. rewrite Ev. eexists. split; reflexivity.
Qed.

Lemma handleBody_result_only_from_witness :
  exists xml, JsString sample_response = JsString xml
    /\ trim xml <> ""
    /\ mentions xml "valid"
    /\ (forall txt, firstElement xml "faultstring" txt -> trim txt = "")
    /\ (forall txt, firstElement xml "valid" txt ->
          (valid sample_result = true <-> toLowerCase (trim txt) = "true"))
    /\ parseViesResponse xml = inr sample_result.
Proof.
  exact (proj1 handleBody_result_only_from (JsString sample_response) sample_result
           eq_refl).
Defined.

(** ** The two patterns of [extractTag] *)

(** [k'] succeeds wherever [k] does. *)
Definition succeeds_where (k k' : string -> option string) : Prop :=
  forall s, k s <> None -> k' s <> None.

Lemma rep_succeeds cls lo hi g cap k n s :
  rep cls lo hi g cap k n s <> None <->
  ((lo <= n) /\ k s <> None) \/
  (exists c s', s = String c s' /\ cls c = true /\ below n hi = true /\
                rep cls lo hi g cap k (S n) s' <> None).
Proof.
  assert (Hmap : forall (A : Type) (f : A -> string) (o : option A),
             option_map f o <> None <-> o <> None)
    by (intros A f [x|]; simpl; split; congruence).
  assert (Hstop : (if (lo <=? n)%nat
                   then if cap then option_map (fun _ => "") (k s) else k s
                   else None) <> None <-> lo <= n /\ k s <> None).
  { destruct (Nat.leb_spec lo n).
    - destruct cap; rewrite ?Hmap; split; try tauto; intros; split; auto; tauto.
    - split; [congruence | lia]. }
  destruct s as [|c s'].
  - cbn [rep]. destruct g.
    + rewrite Hstop. split; [tauto|]. intros [H|(c & s' & [=] & _)]. exact H.
    + destruct (if (lo <=? n)%nat then _ else _) eqn:E.
      * split; [intros _; left; apply Hstop; congruence | congruence].
      * split; [congruence|]. intros [H|(c & s' & [=] & _)].
        apply Hstop in H. congruence.
  - cbn [rep].
    set (more := if cls c && below n hi
                 then if cap then option_map (String c) (rep cls lo hi g cap k (S n) s')
                      else rep cls lo hi g cap k (S n) s'
                 else None).
    assert (Hmore : more <> None <->
              cls c = true /\ below n hi = true /\
              rep cls lo hi g cap k (S n) s' <> None).
    { unfold more. destruct (cls c), (below n hi); cbn [andb].
      - destruct cap; rewrite ?Hmap; tauto.
      - split; [congruence | intros (_ & [=] & _)].
      - split; [congruence | intros ([=] & _)].
      - split; [congruence | intros ([=] & _)]. }
    set (stop := if (lo <=? n)%nat then _ else _) in *.
    assert (Hres : (if g then match more with Some r => Some r | None => stop end
                    else match stop with Some r => Some r | None => more end) <> None
                   <-> stop <> None \/ more <> None).
    { destruct g, more, stop; split; try tauto; try congruence;
        intros; try (left; congruence); try (right; congruence). }
    rewrite Hres, Hstop, Hmore. split.
    + intros [H|H]; [now left | right; now exists c, s'].
    + intros [H|(c' & s'' & [= <- <-] & H)]; [now left | now right].
Qed.

Lemma rep_monotone cls lo hi g cap k k' :
  succeeds_where k k' ->
  forall n, succeeds_where (rep cls lo hi g cap k n) (rep cls lo hi g cap k' n).
Proof.
  intros Hk n s. revert n. induction s as [|c s IH]; intros n;
    rewrite !rep_succeeds.
  - intros [[Hl H]|(c & s' & [=] & _)]. left. split; [exact Hl | now apply Hk].
  - intros [[Hl H]|(c' & s' & [= <- <-] & Hc & Hb & H)].
    + left. split; [exact Hl | now apply Hk].
    + right. exists c, s. repeat split; auto.
Qed.

(** A quantifier that allows zero iterations can be passed over. *)
Lemma rep_zero_ok cls hi g cap k n :
  succeeds_where k (rep cls 0 hi g cap k n).
Proof. intros s H. apply rep_succeeds. left. split; [lia | exact H]. Qed.

Lemma atom_monotone ic a p p' :
  succeeds_where (run ic p) (run ic p') ->
  succeeds_where (run ic (a :: p)) (run ic (a :: p')).
Proof.
  intros H. destruct a as [lit|cls lo hi g cap|].
  - intros s. rewrite !run_Chars. destruct (eat ic lit s); [apply H | congruence].
  - intros s. rewrite !run_Rep. now apply rep_monotone.
  - intros [|c s]; cbn [run]; [apply H | congruence].
Qed.

Lemma succeeds_where_trans k1 k2 k3 :
  succeeds_where k1 k2 -> succeeds_where k2 k3 -> succeeds_where k1 k3.
Proof. intros H1 H2 s H. apply H2, H1, H. Qed.

(** Where the unprefixed pattern matches, so does the prefixed one. *)
Lemma plain_within_prefixed tag :
  succeeds_where (run true (body (tag_re_plain tag)))
                 (run true (body (tag_re_prefixed tag))).
Proof.
  cbn [body tag_re_plain tag_re_prefixed].
  assert (Hname : forall p p',
            succeeds_where (run true p) (run true p') ->
            succeeds_where
              (run true (Chars tag :: p))
              (run true (Rep (none_of ":>") 0 None true false
                         :: Rep (one_of ":") 0 (Some 1) true false
                         :: Chars tag :: p'))).
  { intros p p' H.
    eapply succeeds_where_trans; [apply atom_monotone, H|].
    eapply succeeds_where_trans;
      [|intros s; rewrite run_Rep; apply rep_zero_ok].
    intros s. rewrite run_Rep. apply rep_zero_ok. }
  apply atom_monotone, Hname.
  do 4 apply atom_monotone. apply Hname.
  intros s H. exact H.
Qed.

Lemma search_monotone ic p p' :
  succeeds_where (run ic p) (run ic p') ->
  succeeds_where (search ic p) (search ic p').
Proof.
  intros H s. induction s as [|c s IH]; cbn [search].
  - destruct (run ic p "") eqn:E; [|congruence].
    intros _. specialize (H ""). rewrite E in H.
    destruct (run ic p' ""); [congruence | now destruct H].
  - destruct (run ic p (String c s)) eqn:E.
    + intros _. specialize (H (String c s)). rewrite E in H.
      destruct (run ic p' (String c s)); [congruence | now destruct H].
    + intros Hs. destruct (run ic p' (String c s)); [congruence | now apply IH].
Qed.

(** X7: the second, unprefixed pattern of [extractTag] never decides:
    wherever it matches, the first pattern matches too, so the result is
    always the trimmed group of the first pattern (or null). *)
Theorem extractTag_first_pattern_decides (xml tagName : string) :
  extractTag xml tagName = option_map trim (exec (tag_re_prefixed tagName) xml)
  /\ (exec (tag_re_prefixed tagName) xml = None ->
      exec (tag_re_plain tagName) xml = None).
Proof.
  assert (H : exec (tag_re_prefixed tagName) xml = None ->
              exec (tag_re_plain tagName) xml = None).
  { change (exec (tag_re_prefixed tagName) xml)
      with (search true (body (tag_re_prefixed tagName)) xml).
    change (exec (tag_re_plain tagName) xml)
      with (search true (body (tag_re_plain tagName)) xml).
    intros Hp.
    destruct (search true (body (tag_re_plain tagName)) xml) eqn:E; [|reflexivity].
    exfalso. apply (search_monotone _ _ _ (plain_within_prefixed tagName) xml);
      [congruence | exact Hp]. }
  split; [|exact H]. unfold extractTag.
  destruct (exec (tag_re_prefixed tagName) xml) eqn:E; [reflexivity|].
  now rewrite (H eq_refl).
Qed.

(** ** Escaping and the envelope *)

(** The four characters that never leave [escapeXml]. *)
Definition markup_char (c : ascii) : bool :=
  ((c =? "<") || (c =? ">") || (c =? "034") || (c =? "'"))%char.

Lemma escapeXml_char_facts c :
  all_chars (fun x => negb (markup_char x)) (escapeXml (String c "")) = true
  /\ 1 <= String.length (escapeXml (String c ""))
  /\ (xml_meta c = true -> 1 < String.length (escapeXml (String c ""))).
Proof. ascii_cases c; vm_compute; repeat split; try congruence; lia. Qed.

Lemma escapeXml_cons c s :
  escapeXml (String c s) = escapeXml (String c "") ++ escapeXml s.
Proof. now rewrite <- escapeXml_append. Qed.

Lemma escapeXml_length s :
  String.length s <= String.length (escapeXml s)
  /\ (plain s = false -> String.length s < String.length (escapeXml s)).
Proof.
  unfold plain. induction s as [|c s [IH1 IH2]]; [split; [reflexivity | discriminate]|].
  rewrite escapeXml_cons, length_append. cbn [String.length all_chars].
  destruct (escapeXml_char_facts c) as (_ & H1 & H2).
  split; [lia|]. destruct (xml_meta c) eqn:E; cbn [negb andb].
  - intros _. specialize (H2 eq_refl). lia.
  - intros H. specialize (IH2 H). lia.
Qed.

(** X8: the output of [escapeXml] holds none of [<], [>], the double quote
    and the apostrophe; it is never shorter than its input, and it is the
    input itself exactly when the input holds none of the five
    meta-characters. *)
Theorem escapeXml_output (s : string) :
  all_chars (fun x => negb (markup_char x)) (escapeXml s) = true
  /\ String.length s <= String.length (escapeXml s)
  /\ (escapeXml s = s <-> plain s = true).
Proof.
  split; [|split].
  - induction s as [|c s IH]; [reflexivity|].
    rewrite escapeXml_cons, all_chars_append, IH.
    now rewrite (proj1 (escapeXml_char_facts c)).
  - apply escapeXml_length.
  - split; [|apply escapeXml_plain].
    intros H. destruct (plain s) eqn:E; [reflexivity|].
    pose proof (proj2 (escapeXml_length s) E) as Hl. rewrite H in Hl. lia.
Qed.

(** The envelope up to the country-code element. *)
Definition envelope_pre : string :=
  String.concat nl
    [ "<?xml version=" ++ dq ++ "1.0" ++ dq ++ " encoding=" ++ dq ++ "UTF-8" ++ dq ++ "?>";
      "<soap:Envelope xmlns:soap=" ++ dq ++ "http://schemas.xmlsoap.org/soap/envelope/" ++ dq
        ++ " xmlns:urn=" ++ dq ++ SOAP_NS ++ dq ++ ">";
      "  <soap:Body>";
      "    <urn:checkVat>";
      "      " ].

Lemma buildSoapEnvelope_shape_country cc vn :
  buildSoapEnvelope cc vn =
  envelope_pre ++
  "<" ++ "urn" ++ ":" ++ "countryCode" ++ ">" ++ escapeXml cc ++
  "</" ++ "urn" ++ ":" ++ "countryCode" ++ ">" ++
  (nl ++ "      <urn:vatNumber>" ++ escapeXml vn ++ "</urn:vatNumber>" ++ envelope_tail).
Proof.
  unfold buildSoapEnvelope, envelope_pre, envelope_tail.
  cbn [String.concat]. rewrite !append_assoc. reflexivity.
Qed.

Lemma search_envelope_pre t :
  search true (body (tag_re_prefixed "countryCode")) (envelope_pre ++ t) =
  search true (body (tag_re_prefixed "countryCode")) t.
Proof. vm_compute. reflexivity. Qed.

Lemma extractTag_search xml tag g :
  search true (body (tag_re_prefixed tag)) xml = Some g ->
  extractTag xml tag = Some (trim g).
Proof.
  intros H. unfold extractTag, exec. cbn [anchored icase tag_re_prefixed].
  change (body {| anchored := false; icase := true;
                  body := body (tag_re_prefixed tag) |})
    with (body (tag_re_prefixed tag)).
  now rewrite H.
Qed.

(** X9: no input breaks out of its element: for every country code and
    every VAT number, the [countryCode] and [vatNumber] elements read back
    from the built envelope hold the escaped inputs (trimmed, as [extractTag]
    trims). *)
Theorem envelope_elements_hold_inputs (countryCode vatNumber : string) :
  extractTag (buildSoapEnvelope countryCode vatNumber) "countryCode"
    = Some (trim (escapeXml countryCode))
  /\ extractTag (buildSoapEnvelope countryCode vatNumber) "vatNumber"
    = Some (trim (escapeXml vatNumber)).
Proof.
  split; apply extractTag_search.
  - rewrite buildSoapEnvelope_shape_country, search_envelope_pre.
    apply search_hit, run_prefixed_element; [reflexivity | apply escapeXml_no_lt].
  - rewrite buildSoapEnvelope_shape, search_envelope_head.
    change (body (tag_re_prefixed "vatNumber"))
      with (Chars "<" :: tl (body (tag_re_prefixed "vatNumber"))).
    rewrite (search_skip _ _ _ _ (escapeXml_no_lt countryCode)).
    change (Chars "<" :: tl (body (tag_re_prefixed "vatNumber")))
      with (body (tag_re_prefixed "vatNumber")).
    rewrite search_envelope_mid.
    apply search_hit, run_prefixed_element; [reflexivity | apply escapeXml_no_lt].
Qed.

Example envelope_hostile_input :
  extractTag (buildSoapEnvelope "IE" "1</urn:vatNumber><urn:vatNumber>2") "vatNumber"
  = Some "1&lt;/urn:vatNumber&gt;&lt;urn:vatNumber&gt;2".
Proof. reflexivity. Qed.

(** ** The fallback client *)

Lemma removeAll_runs_none cls s :
  all_chars (fun c => negb (cls c)) s = true -> removeAll_runs cls s = s.
Proof.
  induction s as [|c s IH]; [reflexivity|]. simpl.
  rewrite andb_true_iff, negb_true_iff. intros [-> Hs]. now rewrite (IH Hs).
Qed.

Lemma removeAll_runs_clean cls s :
  all_chars (fun c => negb (cls c)) (removeAll_runs cls s) = true.
Proof.
  induction s as [|c s IH]; [reflexivity|]. simpl.
  destruct (cls c) eqn:E; [exact IH|]. simpl. now rewrite E, IH.
Qed.

Lemma checkVatViaVatlayer_success get now key cc vn r :
  vatlayerService.checkVatViaVatlayer get now key cc vn = inr r <->
  exists data v,
    get vatlayerService.VATLAYER_URL key (vatlayerService.fullVat cc vn)
      = inr (Some data)
    /\ vatlayerService.valid data = Some v
    /\ r = {| valid := v;
              countryCode := vatlayerService.orElse
                               (vatlayerService.country_code data) cc;
              vatNumber := vatlayerService.orElse
                             (vatlayerService.vat_number data) vn;
              name := vatlayerService.orElse
                        (vatlayerService.company_name data) "";
              address := vatlayerService.orElse
                           (vatlayerService.company_address data) "";
              requestDate := slice_to 10 now;
              consultationNumber := None |}.
Proof.
  unfold vatlayerService.checkVatViaVatlayer.
  destruct (get _ _ _) as [[info msg|msg|]|[data|]].
  1-3,5: split; [discriminate | intros (d & v & [=] & _)].
  destruct (vatlayerService.valid data) as [v|] eqn:Ev.
  - split.
    + intros [= <-]. exists data, v. repeat split; auto.
    + intros (d & v' & [= <-] & Hv & ->). rewrite Ev in Hv. now injection Hv as <-.
  - split; [discriminate|].
    intros (d & v & [= <-] & Hv & _). congruence.
Qed.

Lemma checkVatViaVatlayer_failure get now key cc vn e :
  vatlayerService.checkVatViaVatlayer get now key cc vn = inl e ->
  exists msg, e = OtherError msg.
Proof.
  unfold vatlayerService.checkVatViaVatlayer.
  destruct (get _ _ _) as [[info msg|msg|]|[data|]];
    try (intros [= <-]; eexists; reflexivity).
  destruct (vatlayerService.valid data); [discriminate|].
  intros [= <-]; eexists; reflexivity.
Qed.

(** X10: [checkVatViaVatlayer] fails with a plain [Error] only, never with
    a [ViesServiceError]; it succeeds exactly when the provider's answer
    carries a boolean [valid], and its result then has that flag, no
    consultation number, the first ten characters of the clock's ISO time as
    request date, and the caller's country code and number wherever the
    answer has none. *)
Theorem checkVatViaVatlayer_outcome
    (get : string -> string -> string
           -> vatlayerService.GetThrown + option vatlayerService.VatlayerResponse)
    (now key cc vn : string) :
  (forall e, vatlayerService.checkVatViaVatlayer get now key cc vn = inl e ->
             exists msg, e = OtherError msg)
  /\ (forall r, vatlayerService.checkVatViaVatlayer get now key cc vn = inr r <->
        exists data v,
          get vatlayerService.VATLAYER_URL key (vatlayerService.fullVat cc vn)
            = inr (Some data)
          /\ vatlayerService.valid data = Some v
          /\ r = {| valid := v;
                    countryCode := vatlayerService.orElse
                                     (vatlayerService.country_code data) cc;
                    vatNumber := vatlayerService.orElse
                                   (vatlayerService.vat_number data) vn;
                    name := vatlayerService.orElse
                              (vatlayerService.company_name data) "";
                    address := vatlayerService.orElse
                                 (vatlayerService.company_address data) "";
                    requestDate := slice_to 10 now;
                    consultationNumber := None |}).
Proof.
  split.
  - intros e. apply checkVatViaVatlayer_failure.
  - intros r. apply checkVatViaVatlayer_success.
Qed.

(** X11: the number sent to the fallback provider holds no white space,
    and for a request the validators let through it is the country code
    followed by the number, nothing removed. *)
Theorem vatlayer_query_number :
  (forall cc vn, all_chars nonspace (vatlayerService.fullVat cc vn) = true)
  /\ (forall c v, wellFormedRequest c v -> vatlayerService.fullVat c v = c ++ v).
Proof.
  split.
  - intros cc vn. apply removeAll_runs_clean.
  - intros c v (_ & [_ Hc] & _ & Hv). apply removeAll_runs_none.
    rewrite all_chars_append, andb_true_iff. split.
    + revert Hc. apply all_chars_impl. intros x. ascii_cases x; vm_compute; congruence.
    + revert Hv. apply all_chars_impl. intros x. ascii_cases x; vm_compute; congruence.
Qed.

(** ** The routes *)

(** The calls a route may add to the log for the request [(c, v)]. *)
Definition callsFor (key : option string) (c v : string) (calls : list Call) : Prop :=
  calls = [CalledVies c v] \/
  exists k, key = Some k /\ k <> "" /\ calls = [CalledVies c v; CalledVatlayer k c v].

Lemma validateVat_calls key cl c v log :
  exists calls, snd (validateVat key cl c v log) = (log ++ calls)%list
                /\ callsFor key c v calls.
Proof.
  rewrite validateVat_unfold.
  destruct (checkVat cl c v) as [err|r].
  - destruct (whenTruthy key) as [k|] eqn:Hk.
    + apply whenTruthy_Some in Hk as [-> Hne].
      destruct (isIpBlocked err).
      * exists [CalledVies c v; CalledVatlayer k c v]. split.
        -- cbn [snd]. now rewrite <- app_assoc.
        -- right. now exists k.
      * exists [CalledVies c v]. split; [reflexivity | now left].
    + exists [CalledVies c v]. split; [reflexivity | now left].
  - exists [CalledVies c v]. split; [reflexivity | now left].
Qed.

Lemma respond_log key cl now c v log :
  snd (routes.respond key cl now c v log) = snd (validateVat key cl c v log).
Proof.
  unfold routes.respond.
  now destruct (validateVat key cl c v log) as [[[e|m]|r] log'].
Qed.

(** What a route did to the log: nothing and a 400, or the calls for one
    well-formed request. *)
Definition routeEffect (key : option string) (log : list Call)
    (out : errors.HttpResponse * list Call) : Prop :=
  (snd out = log /\ errors.http_status (fst out) = 400%Z) \/
  (exists c v calls, wellFormedRequest c v /\ callsFor key c v calls /\
                     snd out = (log ++ calls)%list).

(** X12: validation failures never reach the network.  Whatever the
    input, each route either answers 400 without any outbound call, or makes
    its calls (the registry once, then at most the fallback once) for a
    request with an allow-listed country code and a number of 2 to 12
    characters in A-Z, 0-9. *)
Theorem routes_call_with_wellFormed_requests
    (key : option string) (cl : Clients) (now : string) (log : list Call) :
  (forall countryCodeParam vatNumberParam,
      routeEffect key log
        (routes.getValidate key cl now countryCodeParam vatNumberParam log))
  /\ (forall vat_number,
      routeEffect key log (routes.getV1Validate key cl now vat_number log)).
Proof.
  split.
  - intros ccP vnP. unfold routes.getValidate.
    destruct (validatePathParams ccP vnP) as [c v|e] eqn:E; [|now left].
    right. destruct (validateVat_calls key cl c v log) as (calls & Hl & Hc).
    exists c, v, calls. rewrite respond_log.
    apply validatePathParams_success in E as (-> & -> & Hcc & Hv).
    split; [apply accepted_wellFormed; auto using toUpperCase_idem | auto].
  - intros q. unfold routes.getV1Validate.
    destruct (validateFullVatInput_untyped _) as [c v|e] eqn:E; [|now left].
    right. destruct (validateVat_calls key cl c v log) as (calls & Hl & Hc).
    exists c, v, calls. rewrite respond_log.
    apply validateFullVatInput_untyped_success in E as (raw & _ & E).
    apply validateFullVatInput_success in E as (-> & -> & Hcc & Hv & _).
    split; [apply accepted_wellFormed; auto using toUpperCase_idem | auto].
Qed.

(** A repeated query parameter arrives as an array: the query route
    answers 400 and calls nothing. *)
Example getV1Validate_not_a_string key cl now log :
  routes.getV1Validate key cl now (Some QueryOther) log =
  (errors.sendError 400 errors.INVALID_INPUT
     "vat_number must be a string (e.g. ?vat_number=IE6388047V)." None, log).
Proof. reflexivity. Qed.

(** With the service's own clients a [ViesServiceError] that reaches the
    route was thrown by [checkVat]. *)
Lemma serviceClients_vies_error post get now1 key c v log e log' :
  validateVat key (routes.serviceClients post get now1) c v log = (inl (ViesErr e), log') ->
  viesService.checkVat post c v = inl e.
Proof.
  rewrite validateVat_unfold. cbn [checkVat routes.serviceClients liveClients].
  destruct (viesService.checkVat post c v) as [e0|r]; [|discriminate].
  assert (Hv : forall k l, (checkVatViaVatlayer (routes.serviceClients post get now1) k c v, l)
                           <> (inl (ViesErr e), log')).
  { intros k l H. injection H as H _. cbn in H.
    destruct (checkVatViaVatlayer_failure _ _ _ _ _ _ H) as [m Hm].
    discriminate Hm. }
  destruct (whenTruthy key) as [k|].
  - destruct (isIpBlocked _); [intros H; now apply Hv in H | now intros [= -> _]].
  - now intros [= -> _].
Qed.

(** The answer is a result at status 200, or an error body at a status of
    at least 400 that the body repeats. *)
Definition wellFormedAnswer (resp : errors.HttpResponse) : Prop :=
  match errors.http_body resp with
  | errors.ResultJson _ => errors.http_status resp = 200%Z
  | errors.ErrorJson b =>
      (400 <= errors.http_status resp)%Z /\
      errors.status_code b = errors.http_status resp
  end.

Lemma respond_wellFormed post get now1 key now c v log :
  wellFormedAnswer
    (fst (routes.respond key (routes.serviceClients post get now1) now c v log)).
Proof.
  unfold routes.respond.
  destruct (validateVat key _ c v log) as [[[e|m]|r] log'] eqn:E; cbn.
  - apply serviceClients_vies_error in E.
    destruct (checkVat_error_inv _ _ _ _ E) as [_ Hs].
    split; [exact (statusFor_error _ _ Hs) | reflexivity].
  - split; [lia | reflexivity].
  - reflexivity.
Qed.

(** X13: with the service's own clients, every answer of the two routes,
    whatever the registry and the fallback provider do, is either a result
    at status 200 or an error body at a status of at least 400, and the
    [status_code] of the body is the status of the answer. *)
Theorem routes_answers_wellFormed
    (post : string -> string -> Thrown + JsValue)
    (get : string -> string -> string
           -> vatlayerService.GetThrown + option vatlayerService.VatlayerResponse)
    (now1 now : string) (key : option string) (log : list Call) :
  (forall countryCodeParam vatNumberParam,
      wellFormedAnswer
        (fst (routes.getValidate key (routes.serviceClients post get now1) now
                countryCodeParam vatNumberParam log)))
  /\ (forall vat_number,
      wellFormedAnswer
        (fst (routes.getV1Validate key (routes.serviceClients post get now1) now
                vat_number log))).
Proof.
  split.
  - intros ccP vnP. unfold routes.getValidate.
    destruct (validatePathParams ccP vnP); [apply respond_wellFormed|].
    cbn. split; [lia | reflexivity].
  - intros q. unfold routes.getV1Validate.
    destruct (validateFullVatInput_untyped _); [apply respond_wellFormed|].
    cbn. split; [lia | reflexivity].
Qed.

(** X14: once the registry has blocked the caller (SERVICE_UNAVAILABLE at
    502), the answer depends on the fallback credential: without one the 502
    is reported with the IP-blocking detail; with one the 502 is never
    reported: the answer is the fallback's result at 200, with a null
    consultation number, or INTERNAL_ERROR at 500. *)
Theorem blocked_request_answer
    (post : string -> string -> Thrown + JsValue)
    (get : string -> string -> string
           -> vatlayerService.GetThrown + option vatlayerService.VatlayerResponse)
    (now1 now : string) (key : option string) (c v : string)
    (e : ViesServiceError) (log : list Call) :
  viesService.checkVat post c v = inl e ->
  code e = SERVICE_UNAVAILABLE -> statusCode e = 502%Z ->
  let resp := fst (routes.respond key (routes.serviceClients post get now1) now c v log) in
  (~ fallbackConfigured key ->
   resp = errors.sendError 502 errors.SERVICE_UNAVAILABLE
            (VIES_ERROR_MESSAGES SERVICE_UNAVAILABLE) (Some IP_BLOCKED_DETAIL))
  /\ (fallbackConfigured key ->
      (exists r, errors.http_status resp = 200%Z /\
                 errors.http_body resp = errors.ResultJson r /\
                 errors.consultation_number r = None)
      \/ (exists msg, resp = errors.sendError 500 errors.INTERNAL_ERROR
                        "An unexpected error occurred. Please try again."
                        (Some msg))).
Proof.
  intros He Hc Hs resp. subst resp. unfold routes.respond.
  rewrite validateVat_unfold. cbn [checkVat routes.serviceClients liveClients].
  rewrite He.
  assert (Hb : isIpBlocked (ViesErr e) = true)
    by (apply isIpBlocked_test; now exists e).
  destruct (checkVat_blocked_is_403 _ _ _ _ He Hc Hs) as (_ & _ & _ & Hd).
  destruct (checkVat_error_inv _ _ _ _ He) as [Hm _].
  split.
  - intros Hn. apply whenTruthy_None in Hn. rewrite Hn. cbn [fst].
    unfold errors.sendError. now rewrite Hs, Hc, Hm, Hd, Hc.
  - intros (k & -> & Hne).
    assert (whenTruthy (Some k) = Some k) as -> by (apply whenTruthy_Some; auto).
    rewrite Hb. cbn [checkVatViaVatlayer routes.serviceClients liveClients].
    destruct (vatlayerService.checkVatViaVatlayer get now1 k c v) as [x|r] eqn:Ev.
    + destruct (checkVatViaVatlayer_failure _ _ _ _ _ _ Ev) as [msg ->].
      right. exists msg. reflexivity.
    + apply checkVatViaVatlayer_success in Ev as (d & b & _ & _ & ->).
      left. eexists. cbn. repeat split; reflexivity.
Qed.

(** A registry that blocks the caller, and a fallback provider that is
    down. *)
Definition post_blocked (_ _ : string) : Thrown + JsValue :=
  inl (ThrownAxios blocked_403).

Definition get_down (_ _ _ : string)
    : vatlayerService.GetThrown + option vatlayerService.VatlayerResponse :=
  inl (vatlayerService.GetAxios None "timeout of 10000ms exceeded").

Lemma blocked_request_answer_witness :
  (exists r,
      errors.http_status
        (fst (routes.respond (Some "k") (routes.serviceClients post_blocked get_down "T1")
                "T2" "IE" "6388047V" [])) = 200%Z /\
      errors.http_body
        (fst (routes.respond (Some "k") (routes.serviceClients post_blocked get_down "T1")
                "T2" "IE" "6388047V" [])) = errors.ResultJson r /\
      errors.consultation_number r = None)
  \/ (exists msg,
      fst (routes.respond (Some "k") (routes.serviceClients post_blocked get_down "T1")
             "T2" "IE" "6388047V" [])
      = errors.sendError 500 errors.INTERNAL_ERROR
          "An unexpected error occurred. Please try again." (Some msg)).
Proof.
  refine (proj2 (blocked_request_answer post_blocked get_down "T1" "T2" (Some "k")
                   "IE" "6388047V" _ [] eq_refl eq_refl eq_refl) _).
  exists "k". split; [reflexivity | discriminate].
Defined.

Lemma orNull_not_empty s : routes.orNull s <> Some "".
Proof. destruct s; cbn; congruence. Qed.

Lemma respond_result key cl now c v log r :
  errors.http_body (fst (routes.respond key cl now c v log)) = errors.ResultJson r ->
  exists vies, r = routes.toApiResponse now vies.
Proof.
  unfold routes.respond.
  destruct (validateVat key cl c v log) as [[[e|m]|res] log']; cbn; try discriminate.
  intros [= <-]. now exists res.
Qed.

(** X15: a result sent by either route never carries an empty string as
    company name, address or request date (they are null instead), and its
    [checked_at] is the clock's time; this holds for any pair of clients. *)
Theorem routes_results_have_no_empty_field
    (key : option string) (cl : Clients) (now : string) (log : list Call)
    (r : errors.VatValidationApiResponse) :
  (forall countryCodeParam vatNumberParam,
      errors.http_body
        (fst (routes.getValidate key cl now countryCodeParam vatNumberParam log))
      = errors.ResultJson r ->
      errors.company_name r <> Some "" /\ errors.address r <> Some "" /\
      errors.request_date r <> Some "" /\ errors.checked_at r = now)
  /\ (forall vat_number,
      errors.http_body (fst (routes.getV1Validate key cl now vat_number log))
      = errors.ResultJson r ->
      errors.company_name r <> Some "" /\ errors.address r <> Some "" /\
      errors.request_date r <> Some "" /\ errors.checked_at r = now).
Proof.
  assert (H : forall vies,
             let a := routes.toApiResponse now vies in
             errors.company_name a <> Some "" /\ errors.address a <> Some "" /\
             errors.request_date a <> Some "" /\ errors.checked_at a = now).
  { intros vies. cbn. repeat split; auto using orNull_not_empty. }
  split.
  - intros ccP vnP. unfold routes.getValidate.
    destruct (validatePathParams ccP vnP); [|discriminate].
    intros Hr. apply respond_result in Hr as [vies ->]. apply H.
  - intros q. unfold routes.getV1Validate.
    destruct (validateFullVatInput_untyped _); [|discriminate].
    intros Hr. apply respond_result in Hr as [vies ->]. apply H.
Qed.

(** ** The API-key gate *)

(** A path other than the two public ones. *)
Definition protectedPath (p : string) : Prop := p <> "/health" /\ p <> "/".

(** A header that is absent or holds white space only. *)
Definition blankHeader (h : option string) : Prop :=
  h = None \/ exists s, h = Some s /\ trim s = "".

Definition refused401 : apiKey.Outcome :=
  apiKey.Sent (errors.sendError 401 errors.UNAUTHORIZED
    "API key required. Provide X-API-Key header or Authorization: Bearer <key>." None).

Definition refused403 : apiKey.Outcome :=
  apiKey.Sent (errors.sendError 403 errors.FORBIDDEN "Invalid API key." None).

Lemma config_apiKey_Some env k :
  config.apiKey env = Some k <-> exists e, env = Some e /\ k = trim e /\ k <> "".
Proof.
  unfold config.apiKey. rewrite whenTruthy_Some. split.
  - destruct env as [e|]; [|now intros [[=] _]]. cbn. intros [[= <-] Hne].
    now exists e.
  - intros (e & -> & -> & Hne). now split.
Qed.

Lemma config_apiKey_blank env : blankHeader env -> config.apiKey env = None.
Proof.
  unfold config.apiKey. intros [->|(s & -> & Hs)]; [reflexivity|].
  cbn. now rewrite Hs.
Qed.

Lemma whenTruthy_trim_blank h :
  blankHeader h -> whenTruthy (option_map trim h) = None.
Proof. apply config_apiKey_blank. Qed.

Lemma protectedPath_test p :
  protectedPath p -> String.eqb p "/health" || String.eqb p "/" = false.
Proof.
  intros [H1 H2]. apply String.eqb_neq in H1, H2. now rewrite H1, H2.
Qed.

(** The middleware past its two first tests. *)
Lemma middleware_protected env k req :
  config.apiKey env = Some k -> protectedPath (apiKey.path req) ->
  apiKey.optionalApiKeyMiddleware (config.apiKey env) req =
  let token :=
    match apiKey.authorization req with
    | Some b => if startsWith "Bearer " b then Some (trim (slice_from 7 b)) else None
    | None => None
    end in
  let provided :=
    match whenTruthy (option_map trim (apiKey.xApiKey req)) with
    | Some h => Some h
    | None => token
    end in
  if apiKey.sameKey provided k then apiKey.Next
  else if negb (match provided with Some p => truthy p | None => false end)
       then refused401 else refused403.
Proof.
  intros Hk Hp. unfold apiKey.optionalApiKeyMiddleware. rewrite Hk.
  assert (whenTruthy (Some k) = Some k) as ->.
  { apply whenTruthy_Some. split; [reflexivity|].
    now apply config_apiKey_Some in Hk as (e & _ & _ & Hne). }
  now rewrite (protectedPath_test _ Hp).
Qed.

Lemma middleware_header env k req h :
  config.apiKey env = Some k -> protectedPath (apiKey.path req) ->
  apiKey.xApiKey req = Some h -> trim h <> "" ->
  apiKey.optionalApiKeyMiddleware (config.apiKey env) req =
  if String.eqb (trim h) k then apiKey.Next else refused403.
Proof.
  intros Hk Hp Hh Hne. rewrite (middleware_protected env k req Hk Hp), Hh.
  cbn [option_map]. 
  assert (whenTruthy (Some (trim h)) = Some (trim h)) as ->
    by (apply whenTruthy_Some; auto).
  cbn zeta. cbn [apiKey.sameKey].
  destruct (String.eqb (trim h) k); [reflexivity|].
  destruct (trim h); [now destruct Hne | reflexivity].
Qed.

(** X16: the gate of the validation routes.  With no key in the
    environment (unset or blank) and on the paths [/] and [/health] every
    request passes.  Otherwise the key is the trimmed environment value, and
    a request passes exactly when its credential equals it: the credential
    is the trimmed [X-API-Key] header when that is not blank, else the
    trimmed text after [Bearer ] of [Authorization].  A missing or empty
    credential is answered 401, a wrong one 403. *)
Theorem apiKey_gate (env : option string) (req : apiKey.Request) :
  let outcome := apiKey.optionalApiKeyMiddleware (config.apiKey env) req in
  (blankHeader env -> outcome = apiKey.Next)
  /\ (~ protectedPath (apiKey.path req) -> outcome = apiKey.Next)
  /\ (forall k, config.apiKey env = Some k <->
                exists e, env = Some e /\ k = trim e /\ k <> "")
  /\ (forall k h,
        config.apiKey env = Some k -> protectedPath (apiKey.path req) ->
        apiKey.xApiKey req = Some h -> trim h <> "" ->
        (trim h = k -> outcome = apiKey.Next) /\
        (trim h <> k -> outcome = refused403))
  /\ (forall k t,
        config.apiKey env = Some k -> protectedPath (apiKey.path req) ->
        blankHeader (apiKey.xApiKey req) ->
        apiKey.authorization req = Some ("Bearer " ++ t) ->
        (trim t = k -> outcome = apiKey.Next) /\
        (trim t = "" -> outcome = refused401) /\
        (trim t <> k -> trim t <> "" -> outcome = refused403))
  /\ (forall k,
        config.apiKey env = Some k -> protectedPath (apiKey.path req) ->
        blankHeader (apiKey.xApiKey req) ->
        (apiKey.authorization req = None \/
         exists b, apiKey.authorization req = Some b /\
                   startsWith "Bearer " b = false) ->
        outcome = refused401).
Proof.
  cbv zeta. split.
  { intros Hb. now rewrite (config_apiKey_blank _ Hb). }
  split.
  { intros Hn. unfold apiKey.optionalApiKeyMiddleware.
    destruct (whenTruthy (config.apiKey env)); [|reflexivity].
    destruct (String.eqb_spec (apiKey.path req) "/health"); [reflexivity|].
    destruct (String.eqb_spec (apiKey.path req) "/"); [reflexivity|].
    destruct Hn. now split. }
  split; [intros k; apply config_apiKey_Some|].
  split.
  { intros k h Hk Hp Hh Hne. rewrite (middleware_header env k req h Hk Hp Hh Hne).
    split; intros H.
    - apply String.eqb_eq in H. now rewrite H.
    - apply String.eqb_neq in H. now rewrite H. }
  split.
  { intros k t Hk Hp Hb Ha.
    rewrite (middleware_protected env k req Hk Hp), (whenTruthy_trim_blank _ Hb), Ha.
    assert (startsWith "Bearer " ("Bearer " ++ t) = true) as ->
      by (apply startsWith_spec; now exists t).
    change (slice_from 7 ("Bearer " ++ t)) with t. cbv zeta. cbn [apiKey.sameKey].
    assert (Hk' : k <> "") by now apply config_apiKey_Some in Hk as (e & _ & _ & Hne).
    split; [|split].
    - intros H. apply String.eqb_eq in H. now rewrite H.
    - intros H. rewrite H. destruct k; [now destruct Hk' | reflexivity].
    - intros H Hne. apply String.eqb_neq in H. rewrite H.
      destruct (trim t); [now destruct Hne | reflexivity]. }
  intros k Hk Hp Hb Ha.
  rewrite (middleware_protected env k req Hk Hp), (whenTruthy_trim_blank _ Hb).
  destruct Ha as [->|(b & -> & ->)]; reflexivity.
Qed.

(** X17: the header comes first.  A request whose [X-API-Key] is not blank
    and is not the key is refused with 403 even when its [Authorization]
    header carries the right key. *)
Theorem apiKey_header_overrides_bearer
    (env : option string) (req : apiKey.Request) (k h : string) :
  config.apiKey env = Some k -> protectedPath (apiKey.path req) ->
  apiKey.xApiKey req = Some h -> trim h <> "" -> trim h <> k ->
  apiKey.authorization req = Some ("Bearer " ++ k) ->
  apiKey.optionalApiKeyMiddleware (config.apiKey env) req = refused403.
Proof.
  intros Hk Hp Hh Hne Hw _. rewrite (middleware_header env k req h Hk Hp Hh Hne).
  apply String.eqb_neq in Hw. now rewrite Hw.
Qed.

Lemma apiKey_header_overrides_bearer_witness :
  apiKey.optionalApiKeyMiddleware (config.apiKey (Some " k1 "))
    {| apiKey.path := "/validate/IE/6388047V"; apiKey.xApiKey := Some "old";
       apiKey.authorization := Some "Bearer k1" |}
  = refused403.
Proof.
  apply (apiKey_header_overrides_bearer (Some " k1 ") _ "k1" "old");
    try reflexivity; try (split; discriminate); discriminate.
Defined.
